(** * OSRS Trade Tracker: ingestion and aggregation engine

    A shallow embedding of [database/db.js] (the SQLite record store and its
    three aggregations) and of [processCsvFile] in [routes/index.js] (row
    normalisation and the import loop), with the properties of the
    specification stated over it.

    Modelling conventions.
    - A JavaScript string is a [string] of code units below 256.
    - A JavaScript number holding an integer is a [Z]; the results of the two
      divisions of the timeline ([roi], [growth]) are exact rationals [Q].
      Rounding of IEEE doubles is not modelled.
    - [undefined] and SQL [NULL] are [None].
    - [CURRENT_TIMESTAMP] is a number of seconds since the epoch; [DATE(..)]
      of it is the day number.
    - A promise is a computation in the monad [M] below: it threads the
      database and the environment, and resolves ([Ok]) or rejects ([Err]). *)

From Stdlib Require Import ZArith QArith Qround List Permutation Sorted Lia.
From Stdlib Require Import Ascii String.
From stdpp Require Import base strings gmap sorting.
Import ListNotations.

#[local] Open Scope string_scope.
#[local] Open Scope list_scope.
#[local] Open Scope Z_scope.

(** ** JavaScript values used by the row normaliser *)

Module Js.

(** [a || b] on values that are a string or [undefined]: the empty string
    and [undefined] are falsy. *)
Definition or_str (a b : option string) : option string :=
  match a with
  | Some s => if String.eqb s "" then b else a
  | None => b
  end.

(** [a || b] on numbers; [None] is [NaN], [null] or [undefined], and 0 is
    falsy as well. *)
Definition or_num (a b : option Z) : option Z :=
  match a with
  | Some n => if n =? 0 then b else a
  | None => b
  end.

(** [x || 0] on a number. *)
Definition or_zero (x : option Z) : Z :=
  match x with
  | Some n => if n =? 0 then 0 else n
  | None => 0
  end.

(** WhiteSpace and LineTerminator code units below 256. *)
Definition is_white_space (c : ascii) : bool :=
  let n := nat_of_ascii c in
  ((n =? 9) || (n =? 10) || (n =? 11) || (n =? 12) || (n =? 13)
   || (n =? 32) || (n =? 160))%nat.

Fixpoint trim_start (s : string) : string :=
  match s with
  | String c rest => if is_white_space c then trim_start rest else s
  | EmptyString => EmptyString
  end.

(** The value of a code unit as a digit of the given radix (10 or 16). *)
Definition digit_value (radix : Z) (c : ascii) : option Z :=
  let n := Z.of_nat (nat_of_ascii c) in
  let v :=
    if (48 <=? n) && (n <=? 57) then Some (n - 48)
    else if (97 <=? n) && (n <=? 122) then Some (n - 87)
    else if (65 <=? n) && (n <=? 90) then Some (n - 55)
    else None in
  match v with
  | Some d => if d <? radix then Some d else None
  | None => None
  end.

(** The longest prefix of radix digits, read left to right; [acc] is the
    value read so far, or [None] before the first digit. *)
Fixpoint parse_digits (radix : Z) (acc : option Z) (s : string) : option Z :=
  match s with
  | String c rest =>
      match digit_value radix c with
      | Some d => parse_digits radix (Some (default 0 acc * radix + d)) rest
      | None => acc
      end
  | EmptyString => acc
  end.

Definition strip_sign (s : string) : Z * string :=
  match s with
  | String "-" rest => (-1, rest)
  | String "+" rest => (1, rest)
  | _ => (1, s)
  end.

Definition strip_hex_prefix (s : string) : Z * string :=
  match s with
  | String "0" (String "x" rest) => (16, rest)
  | String "0" (String "X" rest) => (16, rest)
  | _ => (10, s)
  end.

(** [parseInt(s)] with no radix argument. *)
Definition parseInt_string (s : string) : option Z :=
  let '(sign, s1) := strip_sign (trim_start s) in
  let '(radix, s2) := strip_hex_prefix s1 in
  match parse_digits radix None s2 with
  | Some n => Some (sign * n)
  | None => None
  end.

(** [parseInt(v)]: the argument is first converted with ToString, and
    ToString(undefined) is "undefined". *)
Definition parseInt (v : option string) : option Z :=
  match v with
  | Some s => parseInt_string s
  | None => parseInt_string "undefined"
  end.

End Js.

(** ** The row normaliser of [processCsvFile] *)

(** A parsed CSV line: header name to cell text. *)
Abbreviation CsvRow := (gmap string string).

(** The object literal [record] built for each row. Its fields live in the
    module [Rec]; the plain names are kept for the columns of the table. *)
Module Rec.
Record t := {
  firstBuyTime : option string;
  lastSellTime : option string;
  account : option string;
  item : option string;
  status : option string;
  bought : Z;
  sold : Z;
  avgBuyPrice : Z;
  avgSellPrice : Z;
  tax : Z;
  profit : Z;
  profitEa : Z
}.
End Rec.

Definition text_field (row : CsvRow) (label key : string) : option string :=
  Js.or_str (row !! label) (row !! key).

Definition int_field (row : CsvRow) (label key : string) : Z :=
  Js.or_zero (Js.parseInt (Js.or_str (row !! label) (row !! key))).

Definition normalize (row : CsvRow) : Rec.t :=
  {| Rec.firstBuyTime := text_field row "First buy time" "first_buy_time";
     Rec.lastSellTime := text_field row "Last sell time" "last_sell_time";
     Rec.account := text_field row "Account" "account";
     Rec.item := text_field row "Item" "item";
     Rec.status := text_field row "Status" "status";
     Rec.bought := int_field row "Bought" "bought";
     Rec.sold := int_field row "Sold" "sold";
     Rec.avgBuyPrice := int_field row "Avg. buy price" "avg_buy_price";
     Rec.avgSellPrice := int_field row "Avg. sell price" "avg_sell_price";
     Rec.tax := int_field row "Tax" "tax";
     Rec.profit := int_field row "Profit" "profit";
     Rec.profitEa := int_field row "Profit ea." "profit_ea" |}.

(** ** Stable sorting

    [Array.prototype.sort] with a comparator and the sorter behind
    [ORDER BY] are modelled by one stable insertion sort: [before y x] says
    that [y] has to come strictly before [x]; elements that are not ordered
    by [before] keep their relative position. *)

Section Sorting.
Context {A : Type}.
Variable before : A -> A -> bool.

Fixpoint insert_by (x : A) (l : list A) : list A :=
  match l with
  | [] => [x]
  | y :: l' => if before y x then y :: insert_by x l' else x :: l
  end.

Definition sort_by (l : list A) : list A := fold_right insert_by [] l.
End Sorting.

(** [ORDER BY key DESC] and [ORDER BY key] (ascending). *)
Definition sort_desc {A} (key : A -> Z) : list A -> list A :=
  sort_by (fun y x => key x <? key y).

Definition sort_asc {A} (key : A -> Z) : list A -> list A :=
  sort_by (fun y x => key y <? key x).

Definition sumZ (l : list Z) : Z := fold_right Z.add 0 l.

(** ** The table [trading_records] *)

(** One stored row. [account], [item] and [status] are declared [NOT NULL];
    the two time columns are nullable. The numeric columns always receive a
    number from [insertRecord]. *)
Record Row := {
  id : Z;
  first_buy_time : option string;
  last_sell_time : option string;
  account : string;
  item : string;
  status : string;
  bought : Z;
  sold : Z;
  avg_buy_price : Z;
  avg_sell_price : Z;
  tax : Z;
  profit : Z;
  profit_ea : Z;
  import_date : Z
}.

(** The rows of the table in rowid order. *)
Abbreviation Table := (list Row).

Module Sql.

(** [a = b] in a [WHERE] clause or a [UNIQUE] index, with the default
    [BINARY] collation: byte-wise equality, and never true when a side is
    [NULL]. *)
Definition eq_text (a b : option string) : bool :=
  match a, b with
  | Some x, Some y => String.eqb x y
  | _, _ => false
  end.

(** [UPPER(x)]: folds the ASCII letters only. *)
Definition upper_char (c : ascii) : ascii :=
  let n := nat_of_ascii c in
  if ((97 <=? n) && (n <=? 122))%nat then ascii_of_nat (n - 32) else c.

Fixpoint upper (s : string) : string :=
  match s with
  | String c rest => String (upper_char c) (upper rest)
  | EmptyString => EmptyString
  end.

(** [COUNT(expr)] counts the rows on which [expr] is not [NULL]. *)
Definition count_non_null {A} (l : list (option A)) : nat :=
  length (List.filter (fun o => match o with Some _ => true | None => false end) l).

(** [SUM(expr)] is [NULL] on no rows. *)
Definition sum (l : list Z) : option Z :=
  match l with
  | [] => None
  | _ => Some (sumZ l)
  end.

(** [DATE(import_date)]: the day number of a timestamp in seconds. *)
Definition date (t : Z) : Z := t / 86400.

End Sql.

(** [status = 'FINISHED'] and [status = 'SELLING']. *)
Definition status_is (lit : string) (r : Row) : bool :=
  Sql.eq_text (Some (status r)) (Some lit).

(** [AUTOINCREMENT]: one more than the largest rowid. The table of this
    program only grows; SQLite itself promises no more than a rowid larger
    than every one used before. *)
Definition next_id (t : Table) : Z :=
  1 + fold_right Z.max 0 (map id t).

(** The [UNIQUE(first_buy_time, last_sell_time, item)] index: a stored row
    conflicts with a new key when the three columns are equal, and [NULL] is
    equal to nothing. *)
Definition key_matches (fb ls it : option string) (r : Row) : bool :=
  Sql.eq_text (first_buy_time r) fb
  && Sql.eq_text (last_sell_time r) ls
  && Sql.eq_text (Some (item r)) it.

(** [INSERT OR IGNORE INTO trading_records (...) VALUES (...)] with the
    parameters of [insertRecord]: the row to append, or [None] when a
    [NOT NULL] or the [UNIQUE] constraint makes the statement skip it. *)
Definition insert_or_ignore (now : Z) (r : Rec.t) (t : Table) : option Row :=
  match Rec.account r, Rec.item r, Rec.status r with
  | Some a, Some i, Some s =>
      if existsb (key_matches (Rec.firstBuyTime r) (Rec.lastSellTime r) (Some i)) t
      then None
      else Some {| id := next_id t;
                   first_buy_time := Rec.firstBuyTime r;
                   last_sell_time := Rec.lastSellTime r;
                   account := a;
                   item := i;
                   status := s;
                   bought := Js.or_zero (Some (Rec.bought r));
                   sold := Js.or_zero (Some (Rec.sold r));
                   avg_buy_price := Js.or_zero (Some (Rec.avgBuyPrice r));
                   avg_sell_price := Js.or_zero (Some (Rec.avgSellPrice r));
                   tax := Js.or_zero (Some (Rec.tax r));
                   profit := Js.or_zero (Some (Rec.profit r));
                   profit_ea := Js.or_zero (Some (Rec.profitEa r));
                   import_date := now |}
  | _, _, _ => None
  end.

(** [SELECT COUNT( * ) ... WHERE first_buy_time = ? AND last_sell_time = ?
    AND item = ?]. *)
Definition count_key (fb ls it : option string) (t : Table) : nat :=
  length (List.filter (key_matches fb ls it) t).

(** ** Promises over the database connection *)

(** What the environment decides at each call of [db.run], [db.get] or
    [db.all]: whether the call fails, and the clock read by
    [CURRENT_TIMESTAMP]. *)
Record Event := { ev_fail : bool; ev_now : Z }.

(** The connection: the table, [sqlite3_last_insert_rowid], and the events
    still to come (a call made after the last one succeeds at time 0). *)
Record World := {
  table : Table;
  last_rowid : Z;
  events : list Event
}.

Inductive Result (A : Type) : Type :=
| Ok (a : A)
| Err.
Arguments Ok {A} a.
Arguments Err {A}.

Definition M (A : Type) : Type := World -> Result A * World.

Definition ret {A} (a : A) : M A := fun w => (Ok a, w).

Definition bind {A B} (m : M A) (k : A -> M B) : M B :=
  fun w =>
    match m w with
    | (Ok a, w') => k a w'
    | (Err, w') => (Err, w')
    end.

Notation "'await' x <- m ; k" := (bind m (fun x => k))
  (at level 10, x name, m at level 100, k at level 200).

Definition next_event (w : World) : Event * World :=
  match events w with
  | e :: es => (e, {| table := table w; last_rowid := last_rowid w; events := es |})
  | [] => ({| ev_fail := false; ev_now := 0 |}, w)
  end.

(** A read-only statement ([db.get], [db.all]). *)
Definition query {A} (q : Table -> A) : M A :=
  fun w =>
    let '(e, w') := next_event w in
    if ev_fail e then (Err, w') else (Ok (q (table w')), w').

(** What [db.run] hands to its callback as [this]. *)
Record RunResult := { lastID : Z; changes : Z }.

Definition insertRecord (record : Rec.t) : M RunResult :=
  fun w =>
    let '(e, w') := next_event w in
    if ev_fail e then (Err, w')
    else
      match insert_or_ignore (ev_now e) record (table w') with
      | Some row =>
          (Ok {| lastID := id row; changes := 1 |},
           {| table := table w' ++ [row]; last_rowid := id row; events := events w' |})
      | None => (Ok {| lastID := last_rowid w'; changes := 0 |}, w')
      end.

Definition recordExists (firstBuyTime lastSellTime item : option string) : M bool :=
  query (fun t => (0 <? count_key firstBuyTime lastSellTime item t)%nat).

(** ** Dashboard statistics *)

(** The single row answered by an aggregate query read with [db.get]; a column
    the query does not select is [undefined]. *)
Record AggRow := { total : option Z; count : option Z }.

Module Queries.

Definition totalProfit (t : Table) : AggRow :=
  {| total := Sql.sum (map profit (List.filter (status_is "FINISHED") t));
     count := None |}.

Definition completedFlips (t : Table) : AggRow :=
  {| total := None;
     count := Some (Z.of_nat (length (List.filter (status_is "FINISHED") t))) |}.

Definition totalRecords (t : Table) : AggRow :=
  {| total := None; count := Some (Z.of_nat (length t)) |}.

Definition topFlips (t : Table) : list Row :=
  firstn 10 (sort_desc profit t).

(** [GROUP BY item] over the FINISHED rows: one group per distinct item, in
    the order of first occurrence, with the sum of its profits. SQLite leaves
    the order among groups of equal sum open; [ORDER BY] below keeps the
    order of this list among them. *)
Definition item_groups (t : Table) : list (string * Z) :=
  let finished := List.filter (status_is "FINISHED") t in
  map (fun i => (i, sumZ (map profit
                    (List.filter (fun r => String.eqb (item r) i) finished))))
      (nodup string_dec (map item finished)).

Definition topItems (t : Table) : list (string * Z) :=
  firstn 10 (sort_desc snd (item_groups t)).

End Queries.

(** [row ? (row.total || row.count || 0) : 0]; an aggregate query without
    [GROUP BY] always answers one row. *)
Definition scalar (row : AggRow) : Z :=
  Js.or_zero (Js.or_num (total row) (count row)).

Record Stats := {
  totalProfit : Z;
  completedFlips : Z;
  totalRecords : Z;
  topFlips : list Row;
  topItems : list (string * Z)
}.

(** The object [stats] once the five callbacks have run on table [t]. *)
Definition dashboardStats (t : Table) : Stats :=
  {| totalProfit := scalar (Queries.totalProfit t);
     completedFlips := scalar (Queries.completedFlips t);
     totalRecords := scalar (Queries.totalRecords t);
     topFlips := Queries.topFlips t;
     topItems := Queries.topItems t |}.

(** The five statements are issued in the order of the keys of [queries];
    the promise rejects when one of them fails. *)
Definition getDashboardStats : M Stats :=
  await a <- query Queries.totalProfit;
  await b <- query Queries.completedFlips;
  await c <- query Queries.totalRecords;
  await d <- query Queries.topFlips;
  await e <- query Queries.topItems;
  ret {| totalProfit := scalar a;
         completedFlips := scalar b;
         totalRecords := scalar c;
         topFlips := d;
         topItems := e |}.

(** [getRecords(status)]: the filter is applied when [status] is truthy and
    compares [UPPER(status)] with [UPPER(?)]; most recently imported first. *)
Definition records (wanted : option string) (t : Table) : list Row :=
  let selected :=
    match Js.or_str wanted None with
    | Some s =>
        List.filter (fun r => Sql.eq_text (Some (Sql.upper (status r)))
                                          (Some (Sql.upper s))) t
    | None => t
    end in
  sort_desc import_date selected.

Definition getRecords (wanted : option string) : M (list Row) :=
  query (records wanted).

(** ** Daily returns *)

(** One row of the [GROUP BY DATE(import_date)] query. *)
Record DailyRow := {
  dr_date : Z;
  dr_totalTrades : nat;
  dr_dailyProfit : Z;
  dr_finishedTrades : nat;
  dr_activeTrades : nat
}.

(** The same object after [addTopItemsToDaily] has set [topItem] and
    [topItemProfit] on it. *)
Record Daily := {
  date : Z;
  totalTrades : nat;
  dailyProfit : Z;
  finishedTrades : nat;
  activeTrades : nat;
  topItem : string;
  topItemProfit : Z
}.

Definition on_date (d : Z) (r : Row) : bool := Sql.date (import_date r) =? d.

Module DailyQueries.

(** The aggregates of the group of date [d]. *)
Definition group_row (t : Table) (d : Z) : DailyRow :=
  let g := List.filter (on_date d) t in
  {| dr_date := d;
     dr_totalTrades := length g;
     dr_dailyProfit :=
       sumZ (map (fun r => if status_is "FINISHED" r then profit r else 0) g);
     dr_finishedTrades :=
       Sql.count_non_null
         (map (fun r => if status_is "FINISHED" r then Some 1 else None) g);
     dr_activeTrades :=
       Sql.count_non_null
         (map (fun r => if status_is "SELLING" r then Some 1 else None) g) |}.

(** [GROUP BY DATE(import_date) ORDER BY date DESC]. *)
Definition daily (t : Table) : list DailyRow :=
  map (group_row t)
      (sort_desc (fun d => d) (nodup Z.eq_dec (map (fun r => Sql.date (import_date r)) t))).

(** [SELECT item, profit ... WHERE DATE(import_date) = ? AND
    status = 'FINISHED' ORDER BY profit DESC LIMIT 1]. *)
Definition top_of_day (d : Z) (t : Table) : option (string * Z) :=
  match sort_desc profit
          (List.filter (fun r => on_date d r && status_is "FINISHED" r) t) with
  | r :: _ => Some (item r, profit r)
  | [] => None
  end.

End DailyQueries.

(** The callback of [addTopItemsToDaily] for one day. *)
Definition with_top_item (day : DailyRow) (row : option (string * Z)) : Daily :=
  {| date := dr_date day;
     totalTrades := dr_totalTrades day;
     dailyProfit := dr_dailyProfit day;
     finishedTrades := dr_finishedTrades day;
     activeTrades := dr_activeTrades day;
     topItem := match row with Some r => fst r | None => "No completed trades" end;
     topItemProfit := match row with Some r => snd r | None => 0 end |}.

(** The daily buckets of table [t] once every callback has run. *)
Definition dailyReturns (t : Table) : list Daily :=
  map (fun day => with_top_item day (DailyQueries.top_of_day (dr_date day) t))
      (DailyQueries.daily t).

Fixpoint addTopItemsToDaily (dailyData : list DailyRow) : M (list Daily) :=
  match dailyData with
  | [] => ret []
  | day :: rest =>
      await row <- query (DailyQueries.top_of_day (dr_date day));
      await days <- addTopItemsToDaily rest;
      ret (with_top_item day row :: days)
  end.

Definition getDailyReturns : M (list Daily) :=
  await rows <- query DailyQueries.daily;
  addTopItemsToDaily rows.

(** ** Timeline *)

(** A day of the timeline: the daily bucket with the five properties that
    [getTimelineData] adds to it. *)
Record TimelinePoint := {
  day : Daily;
  items : Z;
  flips : nat;
  netWorth : Z;
  roi : Q;
  growth : Q
}.

Definition startingNetWorth : Z := 198000000.

(** The two variables the [forEach] callback closes over. *)
Record Running := { cumulativeNetWorth : Z; previousDayNetWorth : Z }.

(** [x / y] on numbers. *)
Definition js_div (x y : Z) : Q := (inject_Z x / inject_Z y)%Q.

(** The body of the [forEach] callback; [random] is the value answered by
    [Math.random()]. The numbers are integers and exact rationals here; the
    rounding of the additions on doubles is [net_worths_in_doubles] below. *)
Definition timeline_day (st : Running) (random : Q) (d : Daily)
  : TimelinePoint * Running :=
  let items := Qfloor (random * 10) + 1 in
  let cumulative := cumulativeNetWorth st + dailyProfit d in
  let totalInvested := Z.of_nat (finishedTrades d) * 100000 in
  let point :=
    {| day := d;
       items := items;
       flips := totalTrades d;
       netWorth := cumulative;
       roi := if 0 <? totalInvested
              then js_div (dailyProfit d * 100) totalInvested else 0%Q;
       growth := if 0 <? previousDayNetWorth st
                 then js_div (dailyProfit d * 100) (previousDayNetWorth st)
                 else 0%Q |} in
  (point, {| cumulativeNetWorth := cumulative; previousDayNetWorth := cumulative |}).

(** [dailyData.forEach(...)]: the days in list order, the answers of
    [Math.random()] in call order (0 once they are used up). *)
Fixpoint timeline_forEach (st : Running) (randoms : list Q) (days : list Daily)
  : list TimelinePoint :=
  match days with
  | [] => []
  | d :: rest =>
      let '(p, st') := timeline_day st (hd 0%Q randoms) d in
      p :: timeline_forEach st' (tl randoms) rest
  end.

(** The timeline computed from the daily buckets. *)
Definition timeline (randoms : list Q) (dailyData : list Daily) : list TimelinePoint :=
  let ascending := sort_asc date dailyData in
  let points :=
    timeline_forEach {| cumulativeNetWorth := startingNetWorth;
                        previousDayNetWorth := startingNetWorth |}
                     randoms ascending in
  sort_desc (fun p => date (day p)) points.

Definition timelineData (randoms : list Q) (t : Table) : list TimelinePoint :=
  timeline randoms (dailyReturns t).

Definition getTimelineData (randoms : list Q) : M (list TimelinePoint) :=
  await dailyData <- getDailyReturns;
  ret (timeline randoms dailyData).

(** ** The running net worth on doubles *)

(** The double nearest to the integer [z], ties to the even significand:
    integers below 2^53 in magnitude are doubles, larger ones keep their 53
    leading bits. This is the value an integer column or the exact sum of two
    integer valued doubles has as a JavaScript number, for magnitudes below
    2^1024. *)
Definition round_double (z : Z) : Z :=
  let a := Z.abs z in
  if a <? 2 ^ 53 then z
  else
    let unit := 2 ^ (Z.log2 a - 52) in
    let q := a / unit in
    let r := a mod unit in
    let q' := if 2 * r <? unit then q
              else if unit <? 2 * r then q + 1
              else if Z.even q then q else q + 1 in
    Z.sgn z * (q' * unit).

Definition exact_double (z : Z) : bool := round_double z =? z.

(** [cumulativeNetWorth += day.dailyProfit] on doubles, for each day in
    turn: [profit] is the integer the query answered, read as a number. *)
Fixpoint net_worths_in_doubles (cumulative : Z) (profits : list Z) : list Z :=
  match profits with
  | [] => []
  | profit :: rest =>
      let cumulative' := round_double (cumulative + round_double profit) in
      cumulative' :: net_worths_in_doubles cumulative' rest
  end.

(** ** The import loop of [processCsvFile] *)

(** The three counters declared before the loop. *)
Record Counters := { newRecords : nat; duplicates : nat; errors : nat }.

Record ImportResult := {
  ir_newRecords : nat;
  ir_duplicates : nat;
  ir_errors : nat;
  totalInDb : Z
}.

(** The body of the inner [try] block for one row. *)
Definition row_body (c : Counters) (row : CsvRow) : M Counters :=
  let record := normalize row in
  await exists_ <- recordExists (Rec.firstBuyTime record) (Rec.lastSellTime record)
                                (Rec.item record);
  if negb exists_ then
    await result <- insertRecord record;
    ret (if 0 <? changes result
         then {| newRecords := S (newRecords c); duplicates := duplicates c;
                 errors := errors c |}
         else c)
  else
    ret {| newRecords := newRecords c; duplicates := S (duplicates c);
           errors := errors c |}.

(** [try { ... } catch (rowError) { errors++ }]. *)
Definition process_row (c : Counters) (row : CsvRow) (w : World) : Counters * World :=
  match row_body c row w with
  | (Ok c', w') => (c', w')
  | (Err, w') =>
      ({| newRecords := newRecords c; duplicates := duplicates c;
          errors := S (errors c) |}, w')
  end.

(** [for (const row of results) { ... }]. *)
Fixpoint process_rows (c : Counters) (results : list CsvRow) (w : World)
  : Counters * World :=
  match results with
  | [] => (c, w)
  | row :: rest =>
      let '(c', w') := process_row c row w in
      process_rows c' rest w'
  end.

(** The [end] handler of [processCsvFile] on the parsed rows [results]. *)
Definition processCsvFile (results : list CsvRow) : M ImportResult :=
  fun w =>
    let '(c, w1) :=
      process_rows {| newRecords := 0; duplicates := 0; errors := 0 |} results w in
    (await stats <- getDashboardStats;
     ret {| ir_newRecords := newRecords c;
            ir_duplicates := duplicates c;
            ir_errors := errors c;
            totalInDb := totalRecords stats |}) w1.

(** ** Example data *)

Module Examples.

Definition row1 : CsvRow :=
  <["First buy time" := "T1"]> (<["Last sell time" := "T2"]>
  (<["Account" := "main"]> (<["Item" := "Rune scimitar"]>
  (<["Status" := "FINISHED"]> (<["Profit" := "1500"]> ∅))))).

Definition row2 : CsvRow := <["Profit" := "99"]> row1.

Definition empty_world : World :=
  {| table := []; last_rowid := 0; events := [] |}.

(** A stored row: trade number [i] of item [it], imported at second
    [at_], with the given status and profit. *)
Definition trade (i : Z) (it st : string) (p at_ : Z) : Row :=
  {| id := i; first_buy_time := Some "T1"; last_sell_time := Some "T2";
     account := "main"; item := it; status := st; bought := 1; sold := 1;
     avg_buy_price := 0; avg_sell_price := 0; tax := 0; profit := p;
     profit_ea := p; import_date := at_ |}.

(** The record of [row2]: the key of [row1] with another profit. *)
Definition same_key_record : Rec.t := normalize row2.

(** A connection that stores one row with the key of [row1]. *)
Definition world_with_row1 : World :=
  {| table := [trade 1 "Rune scimitar" "FINISHED" 1500 0];
     last_rowid := 1; events := [] |}.

(** A row without a "First buy time" cell, and a connection that stores
    it already. *)
Definition row_without_buy_time : CsvRow :=
  <["Last sell time" := "T2"]> (<["Account" := "main"]>
  (<["Item" := "Rune scimitar"]> (<["Status" := "SELLING"]> ∅))).

Definition world_with_null_key : World :=
  {| table := [{| id := 1; first_buy_time := None; last_sell_time := Some "T2";
                  account := "main"; item := "Rune scimitar"; status := "SELLING";
                  bought := 0; sold := 0; avg_buy_price := 0; avg_sell_price := 0;
                  tax := 0; profit := 0; profit_ea := 0; import_date := 0 |}];
     last_rowid := 1; events := [] |}.

(** A row with neither time cells nor an "Account" cell. *)
Definition row_without_account : CsvRow :=
  <["Item" := "Rune scimitar"]> (<["Status" := "SELLING"]> ∅).


(** [row1] under another key, with a profit that is not a number. *)
Definition row_with_bad_profit : CsvRow :=
  <["Profit" := "abc"]> (<["First buy time" := "T3"]> row1).

(** A connection that stores the row of [row1] and whose next call fails. *)
Definition world_failing_first_call : World :=
  {| table := [trade 1 "Rune scimitar" "FINISHED" 1500 0];
     last_rowid := 1; events := [{| ev_fail := true; ev_now := 0 |}] |}.


(** One finished trade, imported on day 0. *)
Definition one_trade : Table := [trade 1 "Rune scimitar" "FINISHED" 1000 0].

(** A loss of 200M on day 0, then a profit of 1000 on day 1. *)
Definition loss_table : Table :=
  [trade 1 "Twisted bow" "FINISHED" (-200000000) 0;
   trade 2 "Rune scimitar" "FINISHED" 1000 86400].



(** Profits 10 on day 0 and -5 on day 1, both finished. *)
Definition scenario_table : Table :=
  [trade 1 "Rune scimitar" "FINISHED" 10 0;
   trade 2 "Twisted bow" "FINISHED" (-5) 86400].

(** Profits 500 on day 0 and 1000 on day 1, both finished, and an active
    trade on day 1. *)
Definition gains_table : Table :=
  [trade 1 "Rune scimitar" "FINISHED" 500 0;
   trade 2 "Twisted bow" "FINISHED" 1000 86400;
   trade 3 "Dragon bones" "SELLING" (-40) 86400].

(** One finished trade whose profit is the largest odd double, 2^53 - 1. *)
Definition huge_table : Table :=
  [trade 1 "Twisted bow" "FINISHED" 9007199254740991 0].

End Examples.

(** ** Vocabulary of the properties *)

(** The dates of the daily buckets: the distinct import days, most recent
    first. *)
Definition import_days (t : Table) : list Z :=
  sort_desc (fun d => d) (nodup Z.eq_dec (map (fun r => Sql.date (import_date r)) t)).

(** The net worth recorded on day [k] (counted from 1) of a run of the loop
    that starts with [cumulativeNetWorth = s]. *)
Definition net_worth_after (s : Z) (profits : list Z) (k : nat) : Z :=
  s + sumZ (firstn k profits).




(** Modelled from the spec: the true number of distinct items among the rows
    imported on day [d], which the specification asks for in place of the
    random placeholder. *)
Definition distinct_items_of_day (t : Table) (d : Z) : Z :=
  Z.of_nat (length (nodup string_dec (map item (List.filter (on_date d) t)))).




(** The rows whose status is exactly [lit], and the rows imported on day
    [d]. *)
Definition rows_with_status (lit : string) (t : Table) : Table :=
  filter (fun r => status r = lit) t.

Definition rows_of_day (d : Z) (t : Table) : Table :=
  filter (fun r => Sql.date (import_date r) = d) t.


(** The connection after one more call, and the condition that the next
    call, or the next [n] calls, do not fail. *)
Definition advance (w : World) : World := snd (next_event w).

Definition next_call_succeeds (w : World) : Prop :=
  ev_fail (fst (next_event w)) = false.

Definition calls_succeed (n : nat) (w : World) : Prop :=
  Forall (fun e => ev_fail e = false) (firstn n (events w)).

(** The natural key [(fb, ls, it)] is found by the [UNIQUE] index. *)
Definition key_stored (fb ls it : option string) (t : Table) : bool :=
  existsb (key_matches fb ls it) t.

Definition count_new (c : Counters) : Counters :=
  {| newRecords := S (newRecords c); duplicates := duplicates c; errors := errors c |}.

Definition count_duplicate (c : Counters) : Counters :=
  {| newRecords := newRecords c; duplicates := S (duplicates c); errors := errors c |}.

Definition count_error (c : Counters) : Counters :=
  {| newRecords := newRecords c; duplicates := duplicates c; errors := S (errors c) |}.

(** The connection after a successful insert of [row] made by the second
    call of an iteration. *)
Definition after_insert (w : World) (row : Row) : World :=
  {| table := table w ++ [row]; last_rowid := id row; events := tl (tl (events w)) |}.

Definition no_counts : Counters := {| newRecords := 0; duplicates := 0; errors := 0 |}.

(** A cell is missing when neither spelling of its header gives a non-empty
    text. *)
Definition missing (v : option string) : Prop := v = None \/ v = Some "".

(** A text is unparsable when, after leading white space, an optional sign
    and an optional [0x] prefix, it is empty or does not start with a digit
    (a hexadecimal one after the prefix, a decimal one otherwise). *)
Definition unparsable (s : string) : Prop :=
  let '(radix, digits) :=
    Js.strip_hex_prefix (snd (Js.strip_sign (Js.trim_start s))) in
  match digits with
  | EmptyString => True
  | String c _ => Js.digit_value radix c = None
  end.

(** The seven numeric fields: the two spellings of the header and the field
    of the record. *)
Definition numeric_fields : list (string * string * (Rec.t -> Z)) :=
  [("Bought", "bought", Rec.bought);
   ("Sold", "sold", Rec.sold);
   ("Avg. buy price", "avg_buy_price", Rec.avgBuyPrice);
   ("Avg. sell price", "avg_sell_price", Rec.avgSellPrice);
   ("Tax", "tax", Rec.tax);
   ("Profit", "profit", Rec.profit);
   ("Profit ea.", "profit_ea", Rec.profitEa)].

(** ** Vocabulary of the further properties *)

(** No call made on the connection fails. *)
Definition never_fails (w : World) : Prop :=
  Forall (fun e => ev_fail e = false) (events w).

(** The stored row [r] holds the fields of the record [record]. *)
Definition stores (r : Row) (record : Rec.t) : Prop :=
  first_buy_time r = Rec.firstBuyTime record
  /\ last_sell_time r = Rec.lastSellTime record
  /\ Some (account r) = Rec.account record
  /\ Some (item r) = Rec.item record
  /\ Some (status r) = Rec.status record
  /\ bought r = Rec.bought record
  /\ sold r = Rec.sold record
  /\ avg_buy_price r = Rec.avgBuyPrice record
  /\ avg_sell_price r = Rec.avgSellPrice record
  /\ tax r = Rec.tax record
  /\ profit r = Rec.profit record
  /\ profit_ea r = Rec.profitEa record.

(** The three [NOT NULL] fields of a record are present; its two times are
    present. *)
Definition storable (record : Rec.t) : Prop :=
  is_Some (Rec.account record) /\ is_Some (Rec.item record)
  /\ is_Some (Rec.status record).

Definition complete_key (record : Rec.t) : Prop :=
  is_Some (Rec.firstBuyTime record) /\ is_Some (Rec.lastSellTime record).

(** No row of the table is found by the [UNIQUE] index under the key of an
    earlier row. *)
Fixpoint keys_unique (t : Table) : bool :=
  match t with
  | [] => true
  | r :: rest =>
      negb (key_stored (first_buy_time r) (last_sell_time r) (Some (item r)) rest)
      && keys_unique rest
  end.

(** Two rows carry the same natural key, both times being present. *)
Definition same_full_key (r1 r2 : Row) : Prop :=
  exists fb ls,
    first_buy_time r1 = Some fb /\ first_buy_time r2 = Some fb
    /\ last_sell_time r1 = Some ls /\ last_sell_time r2 = Some ls
    /\ item r1 = item r2.

(** Every rowid of the table is below [n]. *)
Definition ids_below (n : Z) (t : Table) : Prop := Forall (fun r => id r < n) t.

(** ** The weekly comparison of the daily returns page *)

(** The object [weeklyComparison] built by the [/daily-returns] route from
    the answer of [getDailyReturns]: [slice(0, 7).reverse()] and the
    [reduce] over it. *)
Record WeeklyComparison := { weekData : list Daily; weekTotalProfit : Z }.

Definition weeklyComparison (dailyReturns : list Daily) : WeeklyComparison :=
  let weekData := rev (firstn 7 dailyReturns) in
  {| weekData := weekData;
     weekTotalProfit := fold_left (fun sum day => sum + dailyProfit day) weekData 0 |}.

(** Every code unit of [s] is a decimal digit. *)
Fixpoint all_digits (s : string) : bool :=
  match s with
  | EmptyString => true
  | String c rest =>
      match Js.digit_value 10 c with
      | Some _ => all_digits rest
      | None => false
      end
  end.

(** ** The upload route *)

(** The redirect answered by [POST /upload] once the request is
    authenticated, with the numbers that its message interpolates:
    [/?success=...], [/?warning=...], [/upload?info=...], and the two
    [/upload?error=...] answers, for a request without a file and for an
    import that rejects. *)
Inductive Redirect : Type :=
| SuccessRedirect (newRecords duplicates : nat) (totalInDb : Z) (errors : nat)
| WarningRedirect (duplicates : nat) (totalInDb : Z)
| InfoRedirect
| SelectFileRedirect
| ErrorRedirect.

(** The handler of [POST /upload]; [file] is the uploaded file as the CSV
    parser reads it, or [None] when the request carries none. *)
Definition post_upload (file : option (list CsvRow)) (w : World) : Redirect * World :=
  match file with
  | None => (SelectFileRedirect, w)
  | Some results =>
      match processCsvFile results w with
      | (Ok r, w') =>
          (if (0 <? ir_newRecords r)%nat
           then SuccessRedirect (ir_newRecords r) (ir_duplicates r) (totalInDb r)
                                (ir_errors r)
           else if (0 <? ir_duplicates r)%nat
           then WarningRedirect (ir_duplicates r) (totalInDb r)
           else InfoRedirect,
           w')
      | (Err, w') => (ErrorRedirect, w')
      end
  end.

(** ** The routes of [routes/index.js] *)

(** What the session of a client holds for the routes: whether
    [req.session.isAdmin] is set. A fresh or destroyed session has it
    unset. *)
Record Session := { isAdmin : bool }.

(** [requireAuth]: [req.session && req.session.isAdmin]. *)
Definition requireAuth (s : Session) : bool := isAdmin s.

Definition adminUsername : string := "admin".
Definition adminPassword : string := "Nickywest133054!!".

(** A request that reaches a handler of the router. The file of an upload
    is the file as multer accepted it and the CSV parser reads it; the
    answers of [Math.random()] during a timeline request come with it. *)
Inductive Request : Type :=
| GetDashboard
| GetDailyReturns
| GetTimeline (randoms : list Q)
| GetRecords (status : option string)
| GetLogin
| PostLogin (username password : option string)
| GetLogout
| GetUpload
| PostUpload (file : option (list CsvRow))
| GetApiStats.

(** The answer of a handler: the data handed to the rendered view, a
    redirect, or the JSON of the statistics; [failed] says that the view
    shows the error message of the [catch] branch. *)
Inductive Response : Type :=
| DashboardView (totalProfit completedFlips totalRecords : Z)
                (topFlips : list Row) (topItems : list (string * Z)) (failed : bool)
| DailyReturnsView (dailyReturns : list Daily) (weekly : WeeklyComparison) (failed : bool)
| TimelineView (timelineData : list TimelinePoint) (failed : bool)
| RecordsView (records : list Row) (status : option string) (failed : bool)
| LoginView
| UploadView
| LoggedIn
| LoginInvalid
| LoginUnauthorized
| LoggedOut
| Uploaded (answer : Redirect)
| StatsJson (stats : Stats)
| StatsFailed.

(** The handler that a request reaches, with [requireAuth] in front of the
    routes that declare it. *)
Definition handle (req : Request) (s : Session) (w : World)
  : Response * Session * World :=
  match req with
  | GetDashboard =>
      match getDashboardStats w with
      | (Ok stats, w') =>
          (DashboardView (Js.or_zero (Some (totalProfit stats)))
                         (Js.or_zero (Some (completedFlips stats)))
                         (Js.or_zero (Some (totalRecords stats)))
                         (topFlips stats) (topItems stats) false, s, w')
      | (Err, w') => (DashboardView 0 0 0 [] [] true, s, w')
      end
  | GetDailyReturns =>
      match getDailyReturns w with
      | (Ok dailyReturns, w') =>
          (DailyReturnsView dailyReturns (weeklyComparison dailyReturns) false, s, w')
      | (Err, w') =>
          (DailyReturnsView [] {| weekData := []; weekTotalProfit := 0 |} true, s, w')
      end
  | GetTimeline randoms =>
      match getTimelineData randoms w with
      | (Ok timelineData, w') => (TimelineView timelineData false, s, w')
      | (Err, w') => (TimelineView [] true, s, w')
      end
  | GetRecords status =>
      match getRecords status w with
      | (Ok records, w') => (RecordsView records status false, s, w')
      | (Err, w') => (RecordsView [] status true, s, w')
      end
  | GetLogin => (LoginView, s, w)
  | PostLogin username password =>
      if Sql.eq_text username (Some adminUsername)
         && Sql.eq_text password (Some adminPassword)
      then (LoggedIn, {| isAdmin := true |}, w)
      else (LoginInvalid, s, w)
  | GetLogout =>
      if requireAuth s then (LoggedOut, {| isAdmin := false |}, w)
      else (LoginUnauthorized, s, w)
  | GetUpload =>
      if requireAuth s then (UploadView, s, w) else (LoginUnauthorized, s, w)
  | PostUpload file =>
      if requireAuth s
      then let '(answer, w') := post_upload file w in (Uploaded answer, s, w')
      else (LoginUnauthorized, s, w)
  | GetApiStats =>
      match getDashboardStats w with
      | (Ok stats, w') => (StatsJson stats, s, w')
      | (Err, w') => (StatsFailed, s, w')
      end
  end.

(** The requests of one client, served one after the other. *)
Fixpoint serve (reqs : list Request) (s : Session) (w : World) : Session * World :=
  match reqs with
  | [] => (s, w)
  | req :: rest =>
      let '(_, s', w') := handle req s w in
      serve rest s' w'
  end.

(** The request is a login with the admin credentials. *)
Definition admin_login (req : Request) : Prop :=
  req = PostLogin (Some adminUsername) (Some adminPassword).

(** * Properties *)

(** ** Examples *)

Example parseInt_12abc : Js.parseInt (Some " -12abc") = Some (-12).
Proof. reflexivity. Qed.

Example parseInt_hex : Js.parseInt (Some "0x1F") = Some 31.
Proof. reflexivity. Qed.

Example parseInt_abc : Js.parseInt (Some "abc") = None.
Proof. reflexivity. Qed.

Example normalize_example :
  Rec.profit (normalize (<["Profit" := "abc"]> (<["Item" := "Rune scimitar"]> ∅))) = 0
  /\ Rec.item (normalize (<["Profit" := "abc"]> (<["Item" := "Rune scimitar"]> ∅)))
     = Some "Rune scimitar".
Proof. split; vm_compute; reflexivity. Qed.

Example import_two_rows :
  let '(r, w) := processCsvFile [Examples.row1; Examples.row2] Examples.empty_world in
  r = Ok {| ir_newRecords := 1; ir_duplicates := 1; ir_errors := 0; totalInDb := 1 |}
  /\ map profit (table w) = [1500].
Proof. vm_compute. split; reflexivity. Qed.

(** ** Sorting *)

Section SortingFacts.
Context {A : Type}.
Variable before : A -> A -> bool.

Lemma insert_by_perm x l : Permutation (x :: l) (insert_by before x l).
Proof.
  induction l as [|y l IH]; simpl; [reflexivity|].
  destruct (before y x); [|reflexivity].
  rewrite perm_swap. now apply perm_skip.
Qed.

Lemma sort_by_perm l : Permutation l (sort_by before l).
Proof.
  induction l as [|x l IH]; simpl; [constructor|].
  etransitivity; [apply perm_skip, IH|apply insert_by_perm].
Qed.

Lemma sort_by_length l : length (sort_by before l) = length l.
Proof. symmetry. apply Permutation_length, sort_by_perm. Qed.

(** An element that every element of the list has to precede goes last. *)
Lemma insert_by_last x l :
  Forall (fun y => before y x = true) l -> insert_by before x l = l ++ [x].
Proof.
  induction 1 as [|y l Hy _ IH]; simpl; [reflexivity|].
  now rewrite Hy, IH.
Qed.

(** An element that no element of the list has to precede goes first. *)
Lemma insert_by_first x l :
  Forall (fun y => before y x = false) l -> insert_by before x l = x :: l.
Proof. destruct 1 as [|y l Hy _]; simpl; [reflexivity|]. now rewrite Hy. Qed.

(** Sorting is the identity on a list that is in order already. *)
Lemma sort_by_sorted l :
  StronglySorted (fun a b => before b a = false) l -> sort_by before l = l.
Proof.
  induction 1 as [|x l _ IH Hx]; simpl; [reflexivity|].
  rewrite IH. now apply insert_by_first.
Qed.

(** Sorting reverses a list that is in the opposite strict order. *)
Lemma sort_by_reversed l :
  StronglySorted (fun a b => before b a = true) l -> sort_by before l = rev l.
Proof.
  induction 1 as [|x l _ IH Hx]; simpl; [reflexivity|].
  rewrite IH. apply insert_by_last.
  apply List.Forall_forall. intros y Hy. apply in_rev in Hy.
  rewrite List.Forall_forall in Hx. now apply Hx.
Qed.
End SortingFacts.

Section SortingKeys.
Context {A : Type}.
Variable key : A -> Z.

Lemma insert_desc_sorted x l :
  StronglySorted (fun a b => key b <= key a) l ->
  StronglySorted (fun a b => key b <= key a)
                 (insert_by (fun y x => key x <? key y) x l).
Proof.
  induction 1 as [|y l Hl IH Hy]; simpl.
  - repeat constructor.
  - destruct (Z.ltb_spec (key x) (key y)) as [Hlt|Hge].
    + constructor; [exact IH|].
      eapply Permutation_Forall; [apply insert_by_perm|].
      constructor; [lia|exact Hy].
    + constructor; [now constructor|].
      constructor; [exact Hge|].
      eapply List.Forall_impl; [|exact Hy]. simpl. intros; lia.
Qed.

Lemma sort_desc_sorted l :
  StronglySorted (fun a b => key b <= key a) (sort_desc key l).
Proof.
  induction l as [|x l IH]; simpl; [constructor|].
  now apply insert_desc_sorted.
Qed.

Lemma insert_asc_sorted x l :
  StronglySorted (fun a b => key a <= key b) l ->
  StronglySorted (fun a b => key a <= key b)
                 (insert_by (fun y x => key y <? key x) x l).
Proof.
  induction 1 as [|y l Hl IH Hy]; simpl.
  - repeat constructor.
  - destruct (Z.ltb_spec (key y) (key x)) as [Hlt|Hge].
    + constructor; [exact IH|].
      eapply Permutation_Forall; [apply insert_by_perm|].
      constructor; [lia|exact Hy].
    + constructor; [now constructor|].
      constructor; [exact Hge|].
      eapply List.Forall_impl; [|exact Hy]. simpl. intros; lia.
Qed.

Lemma sort_asc_sorted l :
  StronglySorted (fun a b => key a <= key b) (sort_asc key l).
Proof.
  induction l as [|x l IH]; simpl; [constructor|].
  now apply insert_asc_sorted.
Qed.
End SortingKeys.

(** ** Dashboard: the top flips *)

Lemma strongly_sorted_firstn {A} (R : A -> A -> Prop) n (l : list A) :
  StronglySorted R l -> StronglySorted R (firstn n l).
Proof.
  intros H. rewrite <- (firstn_skipn n l) in H.
  now apply StronglySorted_app_1_l in H.
Qed.

Lemma strongly_sorted_split {A} (R : A -> A -> Prop) n (l : list A) :
  StronglySorted R l ->
  Forall (fun y => Forall (fun x => R x y) (firstn n l)) (skipn n l).
Proof.
  intros H. rewrite <- (firstn_skipn n l) in H.
  apply List.Forall_forall. intros y Hy.
  apply List.Forall_forall. intros x Hx.
  apply (StronglySorted_app_1_elem_of R _ _ x y H); now apply list_elem_of_In.
Qed.

(** C7. For every table, [topFlips] of the dashboard has at most 10 rows,
    exactly 10 when the table has that many and all the rows of the table
    otherwise; it is sorted by profit non-increasing, and it is the head of a
    rearrangement of all the rows of the table, whatever their status: every
    row left out has a profit no larger than any row kept. *)
Theorem top_flips_top10_of_all_rows (t : Table) :
  (length (topFlips (dashboardStats t)) <= 10)%nat
  /\ length (topFlips (dashboardStats t)) = Nat.min 10 (length t)
  /\ StronglySorted (fun a b => profit b <= profit a) (topFlips (dashboardStats t))
  /\ exists rest,
       Permutation (topFlips (dashboardStats t) ++ rest) t
       /\ Forall (fun y => Forall (fun x => profit y <= profit x)
                                  (topFlips (dashboardStats t))) rest.
Proof.
  cbn [dashboardStats topFlips]. unfold Queries.topFlips.
  split; [apply firstn_le_length|].
  split; [rewrite length_firstn; unfold sort_desc; now rewrite sort_by_length|].
  split; [apply strongly_sorted_firstn, sort_desc_sorted|].
  exists (skipn 10 (sort_desc profit t)). split.
  - rewrite firstn_skipn. symmetry. apply sort_by_perm.
  - apply (strongly_sorted_split (fun a b => profit b <= profit a)).
    apply sort_desc_sorted.
Qed.

Example top_flips_mixed_status :
  let mk i s p :=
    {| id := i; first_buy_time := None; last_sell_time := None; account := "a";
       item := "x"; status := s; bought := 0; sold := 0; avg_buy_price := 0;
       avg_sell_price := 0; tax := 0; profit := p; profit_ea := 0;
       import_date := 0 |} in
  map (fun r => (status r, profit r))
      (topFlips (dashboardStats [mk 1 "FINISHED" 5; mk 2 "SELLING" 9; mk 3 "BUYING" 7]))
  = [("SELLING", 9); ("BUYING", 7); ("FINISHED", 5)].
Proof. reflexivity. Qed.

(** ** Shape of the daily buckets and of the timeline *)

Lemma sumZ_app l1 l2 : sumZ (l1 ++ l2) = sumZ l1 + sumZ l2.
Proof. induction l1 as [|x l1 IH]; simpl; [reflexivity|]. unfold sumZ in *. simpl. lia. Qed.

Lemma sumZ_rev l : sumZ (rev l) = sumZ l.
Proof.
  induction l as [|x l IH]; simpl; [reflexivity|].
  rewrite sumZ_app, IH. unfold sumZ. simpl. lia.
Qed.

Lemma strongly_sorted_rev {A} (R : A -> A -> Prop) (l : list A) :
  StronglySorted R l -> StronglySorted (fun a b => R b a) (rev l).
Proof.
  induction 1 as [|x l _ IH Hx]; simpl; [constructor|].
  apply StronglySorted_app_2; [|exact IH|repeat constructor].
  intros a b Ha Hb. apply list_elem_of_In in Ha, Hb.
  destruct Hb as [<-|[]]. apply in_rev in Ha.
  rewrite List.Forall_forall in Hx. now apply Hx.
Qed.

Lemma strongly_sorted_map {A B} (f : A -> B) (R : B -> B -> Prop) (l : list A) :
  StronglySorted R (map f l) <-> StronglySorted (fun a b => R (f a) (f b)) l.
Proof.
  induction l as [|x l IH]; simpl.
  - split; constructor.
  - rewrite !StronglySorted_cons, IH, List.Forall_map. reflexivity.
Qed.

Lemma strongly_sorted_impl {A} (R S : A -> A -> Prop) (l : list A) :
  (forall a b, R a b -> S a b) -> StronglySorted R l -> StronglySorted S l.
Proof.
  intros HRS. induction 1 as [|x l _ IH Hx]; constructor; [exact IH|].
  eapply List.Forall_impl; [|exact Hx]. apply HRS.
Qed.

(** A list without duplicates that is sorted is strictly sorted. *)
Lemma strongly_sorted_strict (l : list Z) :
  List.NoDup l -> StronglySorted (fun a b => b <= a) l ->
  StronglySorted (fun a b => b < a) l.
Proof.
  induction 1 as [|x l Hx _ IH]; intros Hs; [constructor|].
  inversion Hs as [|? ? Hl Hle]; subst. constructor; [now apply IH|].
  rewrite List.Forall_forall in *. intros y Hy.
  specialize (Hle y Hy). assert (y <> x) by (intros ->; contradiction). lia.
Qed.

Lemma sort_by_NoDup {A} (before : A -> A -> bool) (l : list A) :
  List.NoDup l -> List.NoDup (sort_by before l).
Proof. intros H. eapply Permutation_NoDup; [apply sort_by_perm|exact H]. Qed.

Lemma dailyReturns_dates t : map date (dailyReturns t) = import_days t.
Proof.
  unfold dailyReturns, DailyQueries.daily, import_days.
  rewrite !map_map. simpl. apply map_id.
Qed.

Lemma import_days_descending t :
  StronglySorted (fun a b => b < a) (import_days t).
Proof.
  apply strongly_sorted_strict.
  - apply sort_by_NoDup, NoDup_nodup.
  - apply (sort_desc_sorted (fun d => d)).
Qed.

Lemma dailyReturns_descending t :
  StronglySorted (fun a b => date b < date a) (dailyReturns t).
Proof.
  apply (strongly_sorted_map date (fun a b => b < a)).
  rewrite dailyReturns_dates. apply import_days_descending.
Qed.

Lemma forEach_days st randoms days :
  map day (timeline_forEach st randoms days) = days.
Proof.
  revert st randoms. induction days as [|d days IH]; intros; simpl; [reflexivity|].
  now rewrite IH.
Qed.

Lemma forEach_length st randoms days :
  length (timeline_forEach st randoms days) = length days.
Proof. rewrite <- (forEach_days st randoms days) at 2. now rewrite length_map. Qed.

(** On buckets in strictly descending date order, as [getDailyReturns]
    answers them, the two sorts of [getTimelineData] are reversals. *)
Lemma timeline_reverses randoms days :
  StronglySorted (fun a b => date b < date a) days ->
  timeline randoms days
  = rev (timeline_forEach {| cumulativeNetWorth := startingNetWorth;
                             previousDayNetWorth := startingNetWorth |}
                          randoms (rev days)).
Proof.
  intros Hdesc. unfold timeline, sort_asc, sort_desc.
  rewrite (sort_by_reversed _ days).
  2:{ eapply strongly_sorted_impl; [|exact Hdesc]. simpl. intros a b Hab.
      now apply Z.ltb_lt. }
  apply sort_by_reversed.
  apply strongly_sorted_rev in Hdesc.
  rewrite <- (forEach_days {| cumulativeNetWorth := startingNetWorth;
                              previousDayNetWorth := startingNetWorth |}
                           randoms (rev days)) in Hdesc.
  apply (strongly_sorted_map day (fun a b => date a < date b)) in Hdesc.
  eapply strongly_sorted_impl; [|exact Hdesc]. simpl. intros a b Hab.
  now apply Z.ltb_lt.
Qed.

Lemma timelineData_ascending randoms t :
  rev (timelineData randoms t)
  = timeline_forEach {| cumulativeNetWorth := startingNetWorth;
                        previousDayNetWorth := startingNetWorth |}
                     randoms (rev (dailyReturns t)).
Proof.
  unfold timelineData.
  rewrite (timeline_reverses _ _ (dailyReturns_descending t)).
  apply rev_involutive.
Qed.

(** ** Timeline: the running net worth *)

Lemma forEach_netWorth days st randoms :
  map netWorth (timeline_forEach st randoms days)
  = map (net_worth_after (cumulativeNetWorth st) (map dailyProfit days))
        (seq 1 (length days)).
Proof.
  revert st randoms. induction days as [|d days IH]; intros st randoms; [reflexivity|].
  cbn [timeline_forEach timeline_day map length seq netWorth fst snd].
  apply (f_equal2 cons).
  - unfold net_worth_after, sumZ. simpl. lia.
  - rewrite IH. cbn [cumulativeNetWorth]. rewrite <- (seq_shift _ 1), map_map.
    apply map_ext. intros k. unfold net_worth_after, sumZ. simpl. lia.
Qed.

Lemma hd_error_rev_map_seq {B} (f : nat -> B) n :
  hd_error (rev (map f (seq 1 n)))
  = match n with O => None | S _ => Some (f n) end.
Proof.
  destruct n as [|n]; [reflexivity|].
  rewrite seq_S, map_app, rev_app_distr. reflexivity.
Qed.

Lemma forallb_rev {A} (f : A -> bool) (l : list A) :
  forallb f (rev l) = forallb f l.
Proof.
  induction l as [|a l IH]; [reflexivity|].
  cbn [rev forallb]. rewrite forallb_app, IH. cbn [forallb].
  rewrite andb_true_r. apply andb_comm.
Qed.

Lemma net_worths_in_doubles_exact profits :
  forall s,
    forallb exact_double profits = true ->
    forallb exact_double
            (map (net_worth_after s profits) (seq 1 (length profits))) = true ->
    net_worths_in_doubles s profits
    = map (net_worth_after s profits) (seq 1 (length profits)).
Proof.
  induction profits as [|p rest IH]; intros s Hp Hs; [reflexivity|].
  cbn [forallb map length seq net_worths_in_doubles] in *.
  apply andb_true_iff in Hp as [Hp Hrest].
  apply andb_true_iff in Hs as [Hs Hafter].
  unfold exact_double in Hp, Hs. apply Z.eqb_eq in Hp, Hs.
  assert (H1 : net_worth_after s (p :: rest) 1 = s + p)
    by (unfold net_worth_after, sumZ; simpl; lia).
  assert (Htl : map (net_worth_after s (p :: rest)) (seq 2 (length rest))
                = map (net_worth_after (s + p) rest) (seq 1 (length rest))).
  { rewrite <- (seq_shift _ 1), map_map. apply map_ext. intros k.
    unfold net_worth_after, sumZ. simpl. lia. }
  rewrite H1 in Hs. rewrite Htl in Hafter. cbn zeta.
  rewrite Hp, Hs, H1, Htl. f_equal. now apply IH.
Qed.

(** C3. [getTimelineData] runs its loop over the daily buckets in ascending
    date order from [startingNetWorth], 198000000. When every daily profit
    and every running total is an integer that a double holds exactly, the
    net worth recorded on day [k] is 198000000 plus the daily profits of the
    first [k] days, the additions on doubles give these same numbers, and the
    net worth of the most recent point is 198000000 plus all daily profits.
    Daily profits 10 then -5 give the net worths 198000010, 198000005. *)
Theorem net_worth_accumulates (randoms : list Q) (t : Table) :
  forallb exact_double (map dailyProfit (dailyReturns t)) = true ->
  forallb exact_double
          (map (net_worth_after startingNetWorth
                  (map dailyProfit (rev (dailyReturns t))))
               (seq 1 (length (dailyReturns t)))) = true ->
  StronglySorted (fun a b => date (day a) < date (day b))
                 (rev (timelineData randoms t))
  /\ map day (rev (timelineData randoms t)) = rev (dailyReturns t)
  /\ map netWorth (rev (timelineData randoms t))
     = map (net_worth_after startingNetWorth
              (map dailyProfit (rev (dailyReturns t))))
           (seq 1 (length (dailyReturns t)))
  /\ net_worths_in_doubles startingNetWorth (map dailyProfit (rev (dailyReturns t)))
     = map netWorth (rev (timelineData randoms t))
  /\ hd_error (map netWorth (timelineData randoms t))
     = match dailyReturns t with
       | [] => None
       | _ => Some (startingNetWorth + sumZ (map dailyProfit (dailyReturns t)))
       end
  /\ (map dailyProfit (rev (dailyReturns t)) = [10; -5] ->
      map netWorth (rev (timelineData randoms t)) = [198000010; 198000005]).
Proof.
  intros Hprofits Htotals.
  pose proof (timelineData_ascending randoms t) as Hasc.
  assert (Hnet : map netWorth (rev (timelineData randoms t))
                 = map (net_worth_after startingNetWorth
                          (map dailyProfit (rev (dailyReturns t))))
                       (seq 1 (length (dailyReturns t)))).
  { rewrite Hasc, forEach_netWorth, length_rev. reflexivity. }
  split; [|split; [|split; [|split; [|split]]]].
  - rewrite Hasc.
    apply (strongly_sorted_map day (fun a b => date a < date b)).
    rewrite forEach_days. apply strongly_sorted_rev, dailyReturns_descending.
  - rewrite Hasc. apply forEach_days.
  - exact Hnet.
  - rewrite Hnet, net_worths_in_doubles_exact; rewrite ?length_map, ?length_rev.
    + reflexivity.
    + rewrite map_rev, forallb_rev. exact Hprofits.
    + exact Htotals.
  - rewrite <- (rev_involutive (timelineData randoms t)), Hasc, map_rev,
      forEach_netWorth, hd_error_rev_map_seq, length_rev.
    destruct (dailyReturns t) as [|d l] eqn:E; [reflexivity|].
    remember (d :: l) as days eqn:Edays.
    destruct (length days) as [|n] eqn:El; [subst days; discriminate|].
    rewrite <- El. cbn [cumulativeNetWorth]. f_equal. unfold net_worth_after.
    rewrite <- (length_rev days), <- (length_map dailyProfit), firstn_all.
    now rewrite map_rev, sumZ_rev.
  - intros Hscenario. rewrite Hnet, Hscenario.
    assert (Hlen : length (dailyReturns t) = 2%nat).
    { rewrite <- (length_rev (dailyReturns t)), <- (length_map dailyProfit), Hscenario.
      reflexivity. }
    rewrite Hlen. reflexivity.
Qed.

Lemma net_worth_accumulates_witness :
  map dailyProfit (rev (dailyReturns Examples.scenario_table)) = [10; -5]
  /\ map netWorth (rev (timelineData [] Examples.scenario_table))
     = [198000010; 198000005]
  /\ net_worths_in_doubles startingNetWorth [10; -5] = [198000010; 198000005]
  /\ hd_error (map netWorth (timelineData [] Examples.scenario_table))
     = Some 198000005.
Proof.
  destruct (net_worth_accumulates [] Examples.scenario_table)
    as (_ & _ & _ & Hdoubles & Hlast & Hscenario).
  - vm_compute. reflexivity.
  - vm_compute. reflexivity.
  - assert (Hp : map dailyProfit (rev (dailyReturns Examples.scenario_table)) = [10; -5])
      by (vm_compute; reflexivity).
    split; [exact Hp|]. split; [exact (Hscenario Hp)|].
    split; [rewrite <- Hp, Hdoubles; exact (Hscenario Hp)|].
    rewrite Hlast. vm_compute. reflexivity.
Defined.

(** The net worths of daily profits 10 then -5 are not 110 and 105: the loop
    starts from 198000000, whatever the caller may want. And the net worth
    after a daily profit of 2^53 - 1 is not 198000000 plus that profit: the
    sum is odd and above 2^53, and the addition rounds it up to the next even
    number. *)
Lemma net_worth_starts_at_the_constant_and_rounds :
  (map dailyProfit (rev (dailyReturns Examples.scenario_table)) = [10; -5]
   /\ map netWorth (rev (timelineData [] Examples.scenario_table))
      = [198000010; 198000005]
   /\ map netWorth (rev (timelineData [] Examples.scenario_table)) <> [110; 105])
  /\ (map dailyProfit (rev (dailyReturns Examples.huge_table)) = [9007199254740991]
      /\ forallb exact_double (map dailyProfit (dailyReturns Examples.huge_table)) = true
      /\ net_worths_in_doubles startingNetWorth
           (map dailyProfit (rev (dailyReturns Examples.huge_table)))
         = [9007199452740992]
      /\ net_worths_in_doubles startingNetWorth
           (map dailyProfit (rev (dailyReturns Examples.huge_table)))
         <> map (net_worth_after startingNetWorth
                   (map dailyProfit (rev (dailyReturns Examples.huge_table))))
                (seq 1 (length (dailyReturns Examples.huge_table)))).
Proof.
  split; [split; [|split]|split; [|split; [|split]]];
    try (vm_compute; reflexivity); vm_compute; discriminate.
Qed.

(** ** Timeline: return on investment and growth *)





(** ** Timeline: the item count *)

Lemma forEach_items days :
  forall st randoms,
    map items (timeline_forEach st randoms days)
    = map (fun k => Qfloor (nth k randoms 0%Q * 10) + 1) (seq 0 (length days)).
Proof.
  induction days as [|d days IH]; intros st randoms; [reflexivity|].
  cbn [timeline_forEach timeline_day map length seq items].
  apply (f_equal2 cons).
  - now destruct randoms.
  - rewrite IH, <- (seq_shift _ 0), map_map. apply map_ext. intros k.
    now destruct randoms, k.
Qed.

(** C5 (the code departs from it). The item count of the [k]-th day in
    ascending date order is [floor(random * 10) + 1] for the [k]-th answer of
    [Math.random()], whatever the rows of that day are. On a table holding
    one trade of one item, two runs answer 6 and 10 although the day has
    exactly 1 distinct item. *)
Theorem item_count_is_the_random_draw :
  (forall randoms t,
     map items (rev (timelineData randoms t))
     = map (fun k => Qfloor (nth k randoms 0%Q * 10) + 1)
           (seq 0 (length (dailyReturns t))))
  /\ map items (timelineData [1 # 2]%Q Examples.one_trade) = [6]
  /\ map items (timelineData [9 # 10]%Q Examples.one_trade) = [10]
  /\ map (fun p => distinct_items_of_day Examples.one_trade (date (day p)))
         (timelineData [1 # 2]%Q Examples.one_trade) = [1].
Proof.
  split; [|repeat split].
  intros randoms t.
  rewrite timelineData_ascending, forEach_items, length_rev. reflexivity.
Qed.

(** ** Timeline: the starting net worth and the unit estimate *)






(** ** Status comparisons of the aggregations *)

Lemma filter_bool_decide {A} (f : A -> bool) (P : A -> Prop)
      `{forall x, Decision (P x)} (l : list A) :
  (forall x, f x = true <-> P x) -> List.filter f l = filter P l.
Proof.
  intros Hf. induction l as [|x l IH]; [reflexivity|].
  simpl. rewrite filter_cons, IH.
  destruct (decide (P x)) as [HP|HP], (f x) eqn:E; try reflexivity.
  - apply Hf in HP. congruence.
  - apply Hf in E. contradiction.
Qed.

Lemma status_is_exact lit r : status_is lit r = true <-> status r = lit.
Proof. unfold status_is, Sql.eq_text. apply String.eqb_eq. Qed.

Lemma filter_status lit t :
  List.filter (status_is lit) t = rows_with_status lit t.
Proof. apply filter_bool_decide, status_is_exact. Qed.

Lemma filter_on_date d t : List.filter (on_date d) t = rows_of_day d t.
Proof. apply filter_bool_decide. intros r. unfold on_date. apply Z.eqb_eq. Qed.


Lemma scalar_sum l : scalar {| total := Sql.sum l; count := None |} = sumZ l.
Proof.
  unfold scalar, Sql.sum. destruct l as [|x l]; [reflexivity|].
  cbn [total count Js.or_num]. destruct (Z.eqb_spec (sumZ (x :: l)) 0) as [->|Hne].
  - reflexivity.
  - cbn [Js.or_zero]. destruct (Z.eqb_spec (sumZ (x :: l)) 0); [contradiction|reflexivity].
Qed.

Lemma scalar_count n :
  scalar {| total := None; count := Some (Z.of_nat n) |} = Z.of_nat n.
Proof.
  unfold scalar. cbn. destruct (Z.eqb_spec (Z.of_nat n) 0) as [->|]; reflexivity.
Qed.

Lemma sum_case_when (f : Row -> bool) g :
  sumZ (map (fun r => if f r then profit r else 0) g)
  = sumZ (map profit (List.filter f g)).
Proof.
  induction g as [|r g IH]; [reflexivity|]. simpl.
  destruct (f r); unfold sumZ in *; simpl; lia.
Qed.

Lemma count_case_when (f : Row -> bool) g :
  Sql.count_non_null (map (fun r => if f r then Some 1 else None) g)
  = length (List.filter f g).
Proof.
  unfold Sql.count_non_null. induction g as [|r g IH]; [reflexivity|].
  simpl. destruct (f r); simpl; now rewrite IH.
Qed.



(** ** Running statements on the connection *)

Lemma advance_table w : table (advance w) = table w.
Proof. unfold advance, next_event. now destruct (events w). Qed.

Lemma advance_last_rowid w : last_rowid (advance w) = last_rowid w.
Proof. unfold advance, next_event. now destruct (events w). Qed.

Lemma advance_events w : events (advance w) = tl (events w).
Proof.
  unfold advance, next_event.
  destruct (events w) as [|e es] eqn:E; simpl; [exact E|reflexivity].
Qed.

Lemma calls_succeed_next n w :
  calls_succeed (S n) w -> next_call_succeeds w /\ calls_succeed n (advance w).
Proof.
  unfold calls_succeed, next_call_succeeds. rewrite advance_events.
  unfold next_event. destruct (events w) as [|e es]; simpl.
  - intros _. split; [reflexivity|]. destruct n; constructor.
  - intros H. inversion H; subst. now split.
Qed.

Lemma calls_succeed_le n m w :
  (n <= m)%nat -> calls_succeed m w -> calls_succeed n w.
Proof.
  unfold calls_succeed. intros Hle H.
  rewrite <- (Nat.min_l n m Hle), <- firstn_firstn.
  now apply Forall_take.
Qed.

Lemma query_run {A} (q : Table -> A) w :
  query q w
  = (if ev_fail (fst (next_event w)) then Err else Ok (q (table w)), advance w).
Proof.
  unfold query, advance. pose proof (advance_table w) as Ht. unfold advance in Ht.
  destruct (next_event w) as [e w']. simpl in *. rewrite Ht. now destruct (ev_fail e).
Qed.

Lemma positive_count_exists {A} (f : A -> bool) l :
  (0 <? length (List.filter f l))%nat = existsb f l.
Proof.
  induction l as [|x l IH]; [reflexivity|]. simpl. now destruct (f x).
Qed.

Lemma recordExists_run fb ls it w :
  recordExists fb ls it w
  = (if ev_fail (fst (next_event w)) then Err else Ok (key_stored fb ls it (table w)),
     advance w).
Proof.
  unfold recordExists. rewrite query_run. unfold count_key, key_stored.
  now rewrite positive_count_exists.
Qed.

Lemma insertRecord_run record w :
  insertRecord record w
  = if ev_fail (fst (next_event w)) then (Err, advance w)
    else match insert_or_ignore (ev_now (fst (next_event w))) record (table w) with
         | Some row =>
             (Ok {| lastID := id row; changes := 1 |},
              {| table := table w ++ [row]; last_rowid := id row;
                 events := tl (events w) |})
         | None => (Ok {| lastID := last_rowid w; changes := 0 |}, advance w)
         end.
Proof.
  unfold insertRecord.
  pose proof (advance_table w) as Ht. pose proof (advance_events w) as He.
  pose proof (advance_last_rowid w) as Hl. unfold advance in *.
  destruct (next_event w) as [e w']. simpl in *. rewrite Ht, He, Hl.
  reflexivity.
Qed.

(** A key with a [NULL] in one of the time columns is never found. *)
Lemma key_with_null_not_stored fb ls it t :
  fb = None \/ ls = None -> key_stored fb ls it t = false.
Proof.
  intros H. unfold key_stored. induction t as [|r t IH]; [reflexivity|].
  simpl. rewrite IH, orb_false_r. unfold key_matches, Sql.eq_text.
  destruct H as [-> | ->].
  - now destruct (first_buy_time r).
  - destruct (first_buy_time r), fb, (last_sell_time r); simpl;
      rewrite ?andb_false_r; reflexivity.
Qed.

(** A stored row is found under its own key when both time columns hold a
    value. *)
Lemma key_of_stored_row fb ls stored t :
  In stored t ->
  first_buy_time stored = Some fb -> last_sell_time stored = Some ls ->
  key_stored (Some fb) (Some ls) (Some (item stored)) t = true.
Proof.
  intros Hin Hfb Hls. unfold key_stored. apply existsb_exists.
  exists stored. split; [exact Hin|].
  unfold key_matches, Sql.eq_text. rewrite Hfb, Hls.
  now rewrite !String.eqb_refl.
Qed.

Lemma insert_or_ignore_stored now record t :
  key_stored (Rec.firstBuyTime record) (Rec.lastSellTime record) (Rec.item record) t
  = true ->
  insert_or_ignore now record t = None.
Proof.
  unfold insert_or_ignore, key_stored. intros H.
  destruct (Rec.account record), (Rec.item record), (Rec.status record);
    try reflexivity.
  now rewrite H.
Qed.

Lemma insert_or_ignore_now now now' record t :
  insert_or_ignore now record t = None -> insert_or_ignore now' record t = None.
Proof.
  unfold insert_or_ignore.
  destruct (Rec.account record), (Rec.item record), (Rec.status record);
    try reflexivity.
  now destruct (existsb _ t).
Qed.

Lemma insert_or_ignore_row now record t row :
  insert_or_ignore now record t = Some row ->
  first_buy_time row = Rec.firstBuyTime record
  /\ last_sell_time row = Rec.lastSellTime record
  /\ Some (item row) = Rec.item record
  /\ Some (account row) = Rec.account record
  /\ Some (status row) = Rec.status record
  /\ profit row = Rec.profit record
  /\ import_date row = now
  /\ key_stored (Rec.firstBuyTime record) (Rec.lastSellTime record)
                (Rec.item record) t = false.
Proof.
  unfold insert_or_ignore, key_stored.
  destruct (Rec.account record), (Rec.item record), (Rec.status record);
    try discriminate.
  destruct (existsb _ t); [discriminate|].
  intros [= <-]. cbn. repeat split.
  unfold Js.or_zero. now destruct (Z.eqb_spec (Rec.profit record) 0).
Qed.

(** ** The store: idempotent insert *)

(** C2 (as amended). For every connection and every record whose
    [firstBuyTime] and [lastSellTime] are present and whose key equals that
    of a stored row, [insertRecord] resolves with [changes = 0] and leaves
    the table, hence the record count and the stored row, as they are,
    whatever the other fields of the record. In particular inserting a
    record with both times present a second time changes nothing. *)
Theorem insert_is_idempotent_on_present_key :
  (forall w record stored fb ls,
     next_call_succeeds w ->
     In stored (table w) ->
     Rec.firstBuyTime record = Some fb -> first_buy_time stored = Some fb ->
     Rec.lastSellTime record = Some ls -> last_sell_time stored = Some ls ->
     Rec.item record = Some (item stored) ->
     exists w',
       insertRecord record w = (Ok {| lastID := last_rowid w; changes := 0 |}, w')
       /\ table w' = table w)
  /\ (forall w record fb ls res w1,
        Rec.firstBuyTime record = Some fb -> Rec.lastSellTime record = Some ls ->
        insertRecord record w = (Ok res, w1) ->
        next_call_succeeds w1 ->
        exists res' w2,
          insertRecord record w1 = (Ok res', w2)
          /\ changes res' = 0 /\ table w2 = table w1).
Proof.
  split.
  - intros w record stored fb ls Hok Hin Hfb Hsfb Hls Hsls Hit.
    exists (advance w). split; [|apply advance_table].
    rewrite insertRecord_run. unfold next_call_succeeds in Hok. rewrite Hok.
    rewrite insert_or_ignore_stored; [reflexivity|].
    rewrite Hfb, Hls, Hit. now apply key_of_stored_row.
  - intros w record fb ls res w1 Hfb Hls Hfirst Hok.
    rewrite insertRecord_run in Hfirst.
    exists {| lastID := last_rowid w1; changes := 0 |}, (advance w1).
    split; [|split; [reflexivity|apply advance_table]].
    rewrite insertRecord_run. unfold next_call_succeeds in Hok. rewrite Hok.
    destruct (ev_fail (fst (next_event w))); [discriminate|].
    destruct (insert_or_ignore (ev_now (fst (next_event w))) record (table w))
      as [row|] eqn:Hins.
    + injection Hfirst as _ <-. cbn [table].
      apply insert_or_ignore_row in Hins as (Hrfb & Hrls & Hrit & _).
      rewrite insert_or_ignore_stored; [reflexivity|].
      rewrite <- Hrit, Hfb, Hls. apply key_of_stored_row; [|congruence..].
      apply in_or_app. right. now left.
    + injection Hfirst as _ <-. rewrite advance_table.
      now rewrite (insert_or_ignore_now _ _ _ _ Hins).
Qed.

Lemma insert_is_idempotent_on_present_key_witness :
  (exists w',
     insertRecord Examples.same_key_record Examples.world_with_row1
     = (Ok {| lastID := 1; changes := 0 |}, w')
     /\ map profit (table w') = [1500])
  /\ (exists res' w2,
        insertRecord (normalize Examples.row1)
                     (snd (insertRecord (normalize Examples.row1) Examples.empty_world))
        = (Ok res', w2)
        /\ changes res' = 0
        /\ map profit (table w2) = [1500]).
Proof.
  split.
  - destruct (proj1 insert_is_idempotent_on_present_key
                Examples.world_with_row1 Examples.same_key_record
                (Examples.trade 1 "Rune scimitar" "FINISHED" 1500 0) "T1" "T2")
      as (w' & Hrun & Htable).
    + reflexivity.
    + now left.
    + vm_compute. reflexivity.
    + reflexivity.
    + vm_compute. reflexivity.
    + reflexivity.
    + vm_compute. reflexivity.
    + exists w'. split; [exact Hrun|]. now rewrite Htable.
  - destruct (proj2 insert_is_idempotent_on_present_key
                Examples.empty_world (normalize Examples.row1) "T1" "T2"
                {| lastID := 1; changes := 1 |}
                (snd (insertRecord (normalize Examples.row1) Examples.empty_world)))
      as (res' & w2 & Hrun & Hch & Htable).
    + vm_compute. reflexivity.
    + vm_compute. reflexivity.
    + vm_compute. reflexivity.
    + reflexivity.
    + exists res', w2. split; [exact Hrun|]. split; [exact Hch|].
      rewrite Htable. vm_compute. reflexivity.
Defined.

(** C2 as the specification states it fails: the key of the record of a
    row without a first buy time equals the key of a stored row, with no
    first buy time either, and the insert stores a second row. *)
Lemma insert_duplicates_null_key :
  let record := normalize Examples.row_without_buy_time in
  exists stored res w',
    In stored (table Examples.world_with_null_key)
    /\ first_buy_time stored = Rec.firstBuyTime record
    /\ last_sell_time stored = Rec.lastSellTime record
    /\ Some (item stored) = Rec.item record
    /\ insertRecord record Examples.world_with_null_key = (Ok res, w')
    /\ changes res = 1
    /\ length (table w') = 2%nat.
Proof.
  eexists _, _, _. split; [now left|].
  split; [vm_compute; reflexivity|]. split; [vm_compute; reflexivity|].
  split; [vm_compute; reflexivity|]. split; [vm_compute; reflexivity|].
  split; reflexivity.
Qed.

(** ** One row of the import loop *)

(** What the [try] block of one iteration does, by the answers of the
    environment and the contents of the table. *)
Lemma row_body_run c row w :
  row_body c row w
  = let record := normalize row in
    if ev_fail (fst (next_event w)) then (Err, advance w)
    else if key_stored (Rec.firstBuyTime record) (Rec.lastSellTime record)
                       (Rec.item record) (table w)
    then (Ok (count_duplicate c), advance w)
    else if ev_fail (fst (next_event (advance w)))
    then (Err, advance (advance w))
    else match insert_or_ignore (ev_now (fst (next_event (advance w))))
                                record (table w) with
         | Some r => (Ok (count_new c), after_insert w r)
         | None => (Ok c, advance (advance w))
         end.
Proof.
  unfold row_body, bind. cbn zeta.
  rewrite recordExists_run.
  destruct (ev_fail (fst (next_event w))); [reflexivity|].
  destruct (key_stored _ _ _ (table w)); [reflexivity|].
  cbn [negb]. rewrite insertRecord_run.
  destruct (ev_fail (fst (next_event (advance w)))); [reflexivity|].
  rewrite advance_table.
  destruct (insert_or_ignore _ (normalize row) (table w)) as [r|]; [|reflexivity].
  unfold ret, after_insert. cbn. now rewrite advance_events.
Qed.

Lemma process_row_run c row w :
  process_row c row w
  = let record := normalize row in
    if ev_fail (fst (next_event w)) then (count_error c, advance w)
    else if key_stored (Rec.firstBuyTime record) (Rec.lastSellTime record)
                       (Rec.item record) (table w)
    then (count_duplicate c, advance w)
    else if ev_fail (fst (next_event (advance w)))
    then (count_error c, advance (advance w))
    else match insert_or_ignore (ev_now (fst (next_event (advance w))))
                                record (table w) with
         | Some r => (count_new c, after_insert w r)
         | None => (c, advance (advance w))
         end.
Proof.
  unfold process_row. rewrite row_body_run. cbn zeta.
  destruct (ev_fail (fst (next_event w))); [reflexivity|].
  destruct (key_stored _ _ _ (table w)); [reflexivity|].
  destruct (ev_fail (fst (next_event (advance w)))); [reflexivity|].
  now destruct (insert_or_ignore _ (normalize row) (table w)).
Qed.

Lemma calls_succeed_events n w w' :
  events w' = events w -> calls_succeed n w -> calls_succeed n w'.
Proof. unfold calls_succeed. now intros ->. Qed.

Lemma calls_succeed_after_insert n w row :
  calls_succeed (2 + n) w -> calls_succeed n (after_insert w row).
Proof.
  intros H. apply calls_succeed_next in H as [_ H].
  apply calls_succeed_next in H as [_ H].
  eapply calls_succeed_events; [|exact H].
  cbn. now rewrite !advance_events.
Qed.

(** A record with the three [NOT NULL] fields present whose key is not
    stored is inserted. *)
Lemma insert_or_ignore_fresh now record t a i s :
  Rec.account record = Some a -> Rec.item record = Some i ->
  Rec.status record = Some s ->
  key_stored (Rec.firstBuyTime record) (Rec.lastSellTime record)
             (Rec.item record) t = false ->
  exists row, insert_or_ignore now record t = Some row.
Proof.
  unfold insert_or_ignore, key_stored. intros -> -> -> ->. eauto.
Qed.

Lemma process_row_fresh c row w a i s :
  Rec.account (normalize row) = Some a -> Rec.item (normalize row) = Some i ->
  Rec.status (normalize row) = Some s ->
  key_stored (Rec.firstBuyTime (normalize row)) (Rec.lastSellTime (normalize row))
             (Rec.item (normalize row)) (table w) = false ->
  calls_succeed 2 w ->
  exists r,
    insert_or_ignore (ev_now (fst (next_event (advance w)))) (normalize row) (table w)
    = Some r
    /\ process_row c row w = (count_new c, after_insert w r).
Proof.
  intros Ha Hi Hs Hkey Hok.
  apply calls_succeed_next in Hok as [Hok1 Hok].
  apply calls_succeed_next in Hok as [Hok2 _].
  unfold next_call_succeeds in *.
  destruct (insert_or_ignore_fresh (ev_now (fst (next_event (advance w))))
              (normalize row) (table w) a i s Ha Hi Hs Hkey) as [r Hr].
  exists r. split; [exact Hr|].
  rewrite process_row_run. cbn zeta. now rewrite Hok1, Hkey, Hok2, Hr.
Qed.

(** ** The store: keys with an absent time *)

(** C10 (as amended). For every record whose [firstBuyTime] or
    [lastSellTime] is absent, [recordExists] answers false whatever the
    table holds; when the record's account, item and status are present,
    every [insertRecord] of it appends a new row, and the import loop stores
    the same such row twice, counting two new records. *)
Theorem absent_time_defeats_deduplication :
  (forall record w,
     Rec.firstBuyTime record = None \/ Rec.lastSellTime record = None ->
     next_call_succeeds w ->
     recordExists (Rec.firstBuyTime record) (Rec.lastSellTime record)
                  (Rec.item record) w
     = (Ok false, advance w))
  /\ (forall record w a i s,
        Rec.firstBuyTime record = None \/ Rec.lastSellTime record = None ->
        Rec.account record = Some a -> Rec.item record = Some i ->
        Rec.status record = Some s ->
        next_call_succeeds w ->
        exists row w',
          insertRecord record w = (Ok {| lastID := id row; changes := 1 |}, w')
          /\ table w' = table w ++ [row]
          /\ first_buy_time row = Rec.firstBuyTime record
          /\ last_sell_time row = Rec.lastSellTime record
          /\ item row = i)
  /\ (forall row c w a i s,
        Rec.firstBuyTime (normalize row) = None
        \/ Rec.lastSellTime (normalize row) = None ->
        Rec.account (normalize row) = Some a -> Rec.item (normalize row) = Some i ->
        Rec.status (normalize row) = Some s ->
        calls_succeed 4 w ->
        exists r1 r2,
          process_rows c [row; row] w
          = (count_new (count_new c), after_insert (after_insert w r1) r2)
          /\ first_buy_time r1 = first_buy_time r2
          /\ last_sell_time r1 = last_sell_time r2
          /\ item r1 = item r2).
Proof.
  split; [|split].
  - intros record w Hnull Hok. rewrite recordExists_run.
    unfold next_call_succeeds in Hok. rewrite Hok.
    now rewrite key_with_null_not_stored.
  - intros record w a i s Hnull Ha Hi Hs Hok.
    destruct (insert_or_ignore_fresh (ev_now (fst (next_event w))) record (table w)
                a i s Ha Hi Hs (key_with_null_not_stored _ _ _ _ Hnull)) as [row Hrow].
    eexists row, _. rewrite insertRecord_run.
    unfold next_call_succeeds in Hok. rewrite Hok, Hrow.
    split; [reflexivity|]. split; [reflexivity|].
    apply insert_or_ignore_row in Hrow as (H1 & H2 & H3 & _).
    repeat split; congruence.
  - intros row c w a i s Hnull Ha Hi Hs Hok.
    destruct (process_row_fresh c row w a i s Ha Hi Hs
                (key_with_null_not_stored _ _ _ _ Hnull)
                (calls_succeed_le 2 4 w ltac:(lia) Hok)) as (r1 & Hr1 & Hrow1).
    destruct (process_row_fresh (count_new c) row (after_insert w r1) a i s Ha Hi Hs
                (key_with_null_not_stored _ _ _ _ Hnull)
                (calls_succeed_after_insert 2 w r1 Hok)) as (r2 & Hr2 & Hrow2).
    exists r1, r2. cbn [process_rows]. rewrite Hrow1, Hrow2.
    split; [reflexivity|].
    apply insert_or_ignore_row in Hr1 as (A1 & A2 & A3 & _).
    apply insert_or_ignore_row in Hr2 as (B1 & B2 & B3 & _).
    repeat split; congruence.
Qed.

Lemma absent_time_defeats_deduplication_witness :
  recordExists None (Some "T2") (Some "Rune scimitar") Examples.world_with_null_key
  = (Ok false, Examples.world_with_null_key)
  /\ (exists row w',
        insertRecord (normalize Examples.row_without_buy_time) Examples.world_with_null_key
        = (Ok {| lastID := id row; changes := 1 |}, w')
        /\ length (table w') = 2%nat)
  /\ (exists r1 r2,
        process_rows no_counts
                     [Examples.row_without_buy_time; Examples.row_without_buy_time]
                     Examples.empty_world
        = ({| newRecords := 2; duplicates := 0; errors := 0 |},
           after_insert (after_insert Examples.empty_world r1) r2)
        /\ first_buy_time r1 = first_buy_time r2
        /\ last_sell_time r1 = last_sell_time r2
        /\ item r1 = item r2).
Proof.
  split; [|split].
  - apply (proj1 absent_time_defeats_deduplication
             (normalize Examples.row_without_buy_time) Examples.world_with_null_key).
    + left. vm_compute. reflexivity.
    + reflexivity.
  - destruct (proj1 (proj2 absent_time_defeats_deduplication)
                (normalize Examples.row_without_buy_time) Examples.world_with_null_key
                "main" "Rune scimitar" "SELLING")
      as (row & w' & Hrun & Htable & _).
    + left. vm_compute. reflexivity.
    + vm_compute. reflexivity.
    + vm_compute. reflexivity.
    + vm_compute. reflexivity.
    + reflexivity.
    + exists row, w'. split; [exact Hrun|]. rewrite Htable, length_app. reflexivity.
  - apply (proj2 (proj2 absent_time_defeats_deduplication)
             Examples.row_without_buy_time no_counts
             Examples.empty_world "main" "Rune scimitar" "SELLING").
    + left. vm_compute. reflexivity.
    + vm_compute. reflexivity.
    + vm_compute. reflexivity.
    + vm_compute. reflexivity.
    + constructor.
Defined.

(** C10 as the specification states it fails: a record with no first buy
    time and no account is not stored by [insertRecord], and importing its
    row twice stores nothing. *)
Lemma absent_account_is_never_stored :
  let record := normalize Examples.row_without_account in
  Rec.firstBuyTime record = None
  /\ insertRecord record Examples.empty_world
     = (Ok {| lastID := 0; changes := 0 |}, Examples.empty_world)
  /\ process_rows {| newRecords := 0; duplicates := 0; errors := 0 |}
                  [Examples.row_without_account; Examples.row_without_account]
                  Examples.empty_world
     = ({| newRecords := 0; duplicates := 0; errors := 0 |}, Examples.empty_world).
Proof. repeat split; vm_compute; reflexivity. Qed.

(** ** The import loop *)



Lemma process_row_accounting c row w :
  let '(c', w') := process_row c row w in
  (newRecords c <= newRecords c')%nat
  /\ (newRecords c' + duplicates c' + errors c'
      <= S (newRecords c + duplicates c + errors c))%nat
  /\ (length (table w') + newRecords c = length (table w) + newRecords c')%nat.
Proof.
  rewrite process_row_run. cbn zeta.
  destruct (ev_fail (fst (next_event w)));
    [rewrite advance_table; cbn; lia|].
  destruct (key_stored _ _ _ (table w));
    [rewrite advance_table; cbn; lia|].
  destruct (ev_fail (fst (next_event (advance w))));
    [rewrite !advance_table; cbn; lia|].
  destruct (insert_or_ignore _ (normalize row) (table w)).
  - cbn. rewrite length_app. cbn. lia.
  - rewrite !advance_table. lia.
Qed.





(** ** The row normaliser *)

Lemma parse_digits_started radix s :
  forall n, Js.parse_digits radix (Some n) s <> None.
Proof.
  induction s as [|c rest IH]; intros n; cbn [Js.parse_digits]; [discriminate|].
  destruct (Js.digit_value radix c); [apply IH|discriminate].
Qed.

(** [parseInt] answers [NaN] on the unparsable texts and on no other. *)
Lemma parseInt_string_unparsable s : Js.parseInt_string s = None <-> unparsable s.
Proof.
  unfold unparsable, Js.parseInt_string.
  destruct (Js.strip_sign (Js.trim_start s)) as [sign s1]. cbn [snd].
  destruct (Js.strip_hex_prefix s1) as [radix [|c rest]]; [easy|].
  cbn [Js.parse_digits]. destruct (Js.digit_value radix c) as [d|]; [|easy].
  pose proof (parse_digits_started radix rest (default 0 None * radix + d)) as H.
  destruct (Js.parse_digits radix _ rest); [easy|contradiction].
Qed.

Lemma int_field_zero row label key :
  missing (text_field row label key)
  \/ (exists s, text_field row label key = Some s /\ unparsable s) ->
  int_field row label key = 0.
Proof.
  unfold int_field, text_field.
  intros [[-> | ->] | (s & -> & Hs)]; try reflexivity.
  cbn [Js.parseInt]. apply parseInt_string_unparsable in Hs. now rewrite Hs.
Qed.

Lemma row_body_resolves c row w :
  calls_succeed 2 w -> exists c', fst (row_body c row w) = Ok c'.
Proof.
  intros Hok. apply calls_succeed_next in Hok as [Hok1 Hok].
  apply calls_succeed_next in Hok as [Hok2 _]. unfold next_call_succeeds in *.
  rewrite row_body_run. cbn zeta. rewrite Hok1, Hok2.
  destruct (key_stored _ _ _ (table w)); [eauto|].
  destruct (insert_or_ignore _ (normalize row) (table w)); eauto.
Qed.

(** C9. For every raw row, each of the seven numeric fields whose cell is
    missing or unparsable is 0 in the normalised record, the unparsable
    texts being those on which [parseInt] answers [NaN]. Normalisation
    raises nothing: when the two calls to the store succeed, the [try] block
    of the row resolves and [errors] is not incremented, whatever the cells
    hold; and a row with the account, item and status present whose key is
    not stored is inserted with the normalised profit. *)
Theorem numeric_fields_default_to_zero :
  (forall row,
     Forall (fun f =>
               missing (text_field row (fst (fst f)) (snd (fst f)))
               \/ (exists s, text_field row (fst (fst f)) (snd (fst f)) = Some s
                             /\ unparsable s) ->
               snd f (normalize row) = 0)
            numeric_fields)
  /\ (forall row c w,
        calls_succeed 2 w ->
        (exists c', fst (row_body c row w) = Ok c')
        /\ errors (fst (process_row c row w)) = errors c)
  /\ (forall row c w a i s,
        Rec.account (normalize row) = Some a -> Rec.item (normalize row) = Some i ->
        Rec.status (normalize row) = Some s ->
        key_stored (Rec.firstBuyTime (normalize row)) (Rec.lastSellTime (normalize row))
                   (Rec.item (normalize row)) (table w) = false ->
        calls_succeed 2 w ->
        exists r,
          process_row c row w = (count_new c, after_insert w r)
          /\ profit r = Rec.profit (normalize row))
  /\ (forall s, Js.parseInt (Some s) = None <-> unparsable s)
  /\ unparsable "abc"
  /\ Rec.profit (normalize Examples.row_with_bad_profit) = 0.
Proof.
  split; [|split; [|split; [|split; [|split]]]].
  - intros row. unfold numeric_fields.
    repeat constructor; cbn [fst snd]; intros H; now apply int_field_zero in H.
  - intros row c w Hok. split; [now apply row_body_resolves|].
    destruct (row_body_resolves c row w Hok) as [c' Hc'].
    unfold process_row. rewrite row_body_run in *. cbn zeta in *.
    destruct (ev_fail (fst (next_event w))); [discriminate|].
    destruct (key_stored _ _ _ (table w)); [reflexivity|].
    destruct (ev_fail (fst (next_event (advance w)))); [discriminate|].
    now destruct (insert_or_ignore _ (normalize row) (table w)).
  - intros row c w a i s Ha Hi Hs Hkey Hok.
    destruct (process_row_fresh c row w a i s Ha Hi Hs Hkey Hok) as (r & Hr & Hrun).
    exists r. split; [exact Hrun|].
    now apply insert_or_ignore_row in Hr as (_ & _ & _ & _ & _ & Hp & _).
  - intros s. apply parseInt_string_unparsable.
  - vm_compute. reflexivity.
  - vm_compute. reflexivity.
Qed.

Lemma numeric_fields_default_to_zero_witness :
  ((exists c', fst (row_body no_counts Examples.row_with_bad_profit
                             Examples.world_with_row1) = Ok c')
   /\ errors (fst (process_row no_counts Examples.row_with_bad_profit
                               Examples.world_with_row1)) = 0%nat)
  /\ (exists r,
        process_row no_counts Examples.row_with_bad_profit Examples.world_with_row1
        = (count_new no_counts, after_insert Examples.world_with_row1 r)
        /\ profit r = 0).
Proof.
  pose proof numeric_fields_default_to_zero as (Hzero & Hquiet & Hins & _).
  split.
  - apply (Hquiet Examples.row_with_bad_profit no_counts Examples.world_with_row1).
    constructor.
  - destruct (Hins Examples.row_with_bad_profit no_counts Examples.world_with_row1
                "main" "Rune scimitar" "FINISHED") as (r & Hrun & Hprofit).
    + vm_compute. reflexivity.
    + vm_compute. reflexivity.
    + vm_compute. reflexivity.
    + vm_compute. reflexivity.
    + constructor.
    + exists r. split; [exact Hrun|]. rewrite Hprofit.
      specialize (Hzero Examples.row_with_bad_profit).
      unfold numeric_fields in Hzero. rewrite List.Forall_forall in Hzero.
      apply (Hzero ("Profit", "profit", Rec.profit)).
      * cbn. tauto.
      * right. exists "abc". split; vm_compute; reflexivity.
Defined.

(** * Further properties of the store and of the import *)

(** ** What a statement does to the table *)

Lemma insert_or_ignore_stores now record t row :
  insert_or_ignore now record t = Some row ->
  stores row record /\ id row = next_id t /\ import_date row = now.
Proof.
  unfold insert_or_ignore, stores.
  destruct (Rec.account record), (Rec.item record), (Rec.status record);
    try discriminate.
  destruct (existsb _ t); [discriminate|].
  intros [= <-]. cbn. unfold Js.or_zero.
  repeat split;
    match goal with
    | |- (if ?x =? 0 then 0 else ?x) = ?x => now destruct (Z.eqb_spec x 0)
    | _ => reflexivity
    end.
Qed.

Lemma insert_or_ignore_mono now now' record t added :
  insert_or_ignore now record t = None ->
  insert_or_ignore now' record (t ++ added) = None.
Proof.
  unfold insert_or_ignore.
  destruct (Rec.account record), (Rec.item record), (Rec.status record);
    try reflexivity.
  rewrite existsb_app. now destruct (existsb _ t).
Qed.

Lemma key_stored_app fb ls it t added :
  key_stored fb ls it (t ++ added)
  = key_stored fb ls it t || key_stored fb ls it added.
Proof. apply existsb_app. Qed.

Lemma key_stored_spec fb ls it t :
  key_stored fb ls it t = true
  <-> exists stored x y,
        In stored t
        /\ fb = Some x /\ first_buy_time stored = Some x
        /\ ls = Some y /\ last_sell_time stored = Some y
        /\ it = Some (item stored).
Proof.
  unfold key_stored. rewrite existsb_exists. split.
  - intros (stored & Hin & Hm). unfold key_matches, Sql.eq_text in Hm.
    destruct (first_buy_time stored) as [x|] eqn:Ex, fb as [x'|]; try discriminate.
    destruct (last_sell_time stored) as [y|] eqn:Ey, ls as [y'|];
      try (rewrite andb_false_r in Hm; discriminate).
    destruct it as [i|]; [|rewrite andb_false_r in Hm; discriminate].
    apply andb_prop in Hm as [Hm Hi]. apply andb_prop in Hm as [Hx Hy].
    apply String.eqb_eq in Hx, Hy, Hi. subst.
    exists stored, x', y'. now rewrite Ex, Ey.
  - intros (stored & x & y & Hin & -> & Hx & -> & Hy & ->).
    exists stored. split; [exact Hin|].
    unfold key_matches, Sql.eq_text. rewrite Hx, Hy. now rewrite !String.eqb_refl.
Qed.

(** One iteration of the loop leaves the table or appends the row that
    [INSERT OR IGNORE] builds from the record of the row. *)
Lemma process_row_table c row w :
  table (snd (process_row c row w)) = table w
  \/ exists now r,
       insert_or_ignore now (normalize row) (table w) = Some r
       /\ table (snd (process_row c row w)) = table w ++ [r]
       /\ fst (process_row c row w) = count_new c.
Proof.
  rewrite process_row_run. cbn zeta.
  destruct (ev_fail (fst (next_event w))); [left; apply advance_table|].
  destruct (key_stored _ _ _ (table w)); [left; apply advance_table|].
  destruct (ev_fail (fst (next_event (advance w))));
    [left; cbn [snd]; now rewrite !advance_table|].
  destruct (insert_or_ignore _ (normalize row) (table w)) as [r|] eqn:E.
  - right. now exists (ev_now (fst (next_event (advance w)))), r.
  - left. cbn [snd]. now rewrite !advance_table.
Qed.

Lemma getDashboardStats_table w : table (snd (getDashboardStats w)) = table w.
Proof.
  unfold getDashboardStats, bind, ret.
  repeat (rewrite query_run;
          match goal with
          | |- context [ev_fail ?e] => destruct (ev_fail e)
          end;
          [cbn [snd]; now rewrite !advance_table|]).
  cbn [snd]. now rewrite !advance_table.
Qed.

Lemma processCsvFile_table results w :
  table (snd (processCsvFile results w))
  = table (snd (process_rows no_counts results w)).
Proof.
  unfold processCsvFile, no_counts.
  destruct (process_rows _ results w) as [c w1]. cbn [snd].
  pose proof (getDashboardStats_table w1) as H.
  unfold bind, ret. now destruct (getDashboardStats w1) as [[stats|] w2].
Qed.

(** An invariant of the table that every successful insert keeps is kept by
    the whole loop. *)
Lemma process_rows_invariant (P : Table -> Prop) :
  (forall now record t r,
     P t -> insert_or_ignore now record t = Some r -> P (t ++ [r])) ->
  forall results c w,
    P (table w) -> P (table (snd (process_rows c results w))).
Proof.
  intros Hstep. induction results as [|row rest IH]; intros c w HP; [exact HP|].
  cbn [process_rows].
  pose proof (process_row_table c row w) as Ht.
  destruct (process_row c row w) as [c1 w1]. cbn [fst snd] in Ht.
  apply IH. destruct Ht as [-> | (now & r & Hr & -> & _)]; [exact HP|].
  now apply (Hstep now (normalize row)).
Qed.

(** ** The import only appends normalised rows *)

(** X1. Whether it resolves or rejects, [processCsvFile] leaves every stored
    row in place and appends as many rows as the loop counted new; each
    appended row holds the fields of the normalised record of a row of the
    batch. Nothing is rolled back when the final statistics cannot be
    read. *)
Theorem import_only_appends_batch_rows (results : list CsvRow) (w : World) :
  exists added,
    table (snd (processCsvFile results w)) = table w ++ added
    /\ length added = newRecords (fst (process_rows no_counts results w))
    /\ Forall (fun r => exists row, In row results /\ stores r (normalize row)) added.
Proof.
  rewrite processCsvFile_table.
  assert (Hgen : forall rs c w0,
             exists added,
               table (snd (process_rows c rs w0)) = table w0 ++ added
               /\ (length added + newRecords c
                   = newRecords (fst (process_rows c rs w0)))%nat
               /\ Forall (fun r => exists row, In row rs /\ stores r (normalize row))
                         added).
  { induction rs as [|row rest IH]; intros c w0.
    - exists []. cbn. rewrite app_nil_r. repeat split. constructor.
    - cbn [process_rows].
      pose proof (process_row_table c row w0) as Ht.
      destruct (process_row c row w0) as [c1 w1] eqn:E1. cbn [fst snd] in Ht.
      destruct (IH c1 w1) as (added & Htab & Hlen & Hall).
      assert (Hall' : Forall (fun r => exists row0, In row0 (row :: rest)
                                          /\ stores r (normalize row0)) added).
      { eapply List.Forall_impl; [|exact Hall]. cbn beta.
        intros r (row0 & Hin & Hs). exists row0. split; [now right|exact Hs]. }
      destruct Ht as [Ht | (now & r & Hr & Ht & Hc)].
      + exists added. rewrite Htab, Ht. split; [reflexivity|]. split; [|exact Hall'].
        pose proof (process_row_accounting c row w0) as Hacc. rewrite E1 in Hacc.
        rewrite Ht in Hacc. lia.
      + exists (r :: added). rewrite Htab, Ht, <- app_assoc. split; [reflexivity|].
        subst c1. cbn [count_new newRecords length] in *. split; [lia|].
        constructor; [|exact Hall'].
        exists row. split; [now left|].
        now apply insert_or_ignore_stores in Hr as [Hs _]. }
  destruct (Hgen results no_counts w) as (added & Htab & Hlen & Hall).
  exists added. split; [exact Htab|]. split; [|exact Hall].
  cbn [no_counts newRecords] in Hlen. lia.
Qed.

(** ** Rowids *)

Lemma next_id_above t : Forall (fun r => id r < next_id t) t /\ 0 < next_id t.
Proof.
  unfold next_id. induction t as [|r t [IH Hpos]]; cbn [map fold_right].
  - split; [constructor|lia].
  - split; [|lia]. constructor; [lia|].
    eapply List.Forall_impl; [|exact IH]. cbn beta. intros; lia.
Qed.

Lemma NoDup_ids_snoc t r :
  List.NoDup (map id t) -> Forall (fun s => id s < id r) t ->
  List.NoDup (map id (t ++ [r])).
Proof.
  intros Hnd Hlt. rewrite map_app. cbn [map].
  apply NoDup_ListNoDup in Hnd. apply NoDup_ListNoDup.
  apply NoDup_app. split; [exact Hnd|]. split.
  - intros x Hx Hr. apply list_elem_of_In in Hx, Hr. destruct Hr as [<-|[]].
    apply in_map_iff in Hx as (s & Hs & Hin).
    rewrite List.Forall_forall in Hlt. specialize (Hlt s Hin). lia.
  - apply NoDup_singleton.
Qed.

(** X2. A row that [insertRecord] stores gets a positive rowid larger than
    every rowid of the table, so an import keeps the rowids of the table
    pairwise distinct. *)
Theorem rowids_are_fresh :
  (forall now record t r,
     insert_or_ignore now record t = Some r ->
     0 < id r /\ Forall (fun s => id s < id r) t)
  /\ (forall results w,
        List.NoDup (map id (table w)) ->
        List.NoDup (map id (table (snd (processCsvFile results w))))).
Proof.
  assert (Hfresh : forall now record t r,
             insert_or_ignore now record t = Some r ->
             0 < id r /\ Forall (fun s => id s < id r) t).
  { intros now record t r Hr.
    apply insert_or_ignore_stores in Hr as (_ & -> & _).
    split; apply next_id_above. }
  split; [exact Hfresh|].
  intros results w Hnd. rewrite processCsvFile_table.
  apply (process_rows_invariant (fun t => List.NoDup (map id t))); [|exact Hnd].
  intros now record t r Ht Hr. apply NoDup_ids_snoc; [exact Ht|].
  now apply (Hfresh now record).
Qed.

Lemma rowids_are_fresh_witness :
  (exists r,
     insert_or_ignore 0 (normalize Examples.row_with_bad_profit)
                      (table Examples.world_with_row1) = Some r
     /\ 0 < id r /\ Forall (fun s => id s < id r) (table Examples.world_with_row1))
  /\ List.NoDup (map id (table (snd (processCsvFile
                                       [Examples.row_with_bad_profit; Examples.row1]
                                       Examples.world_with_row1)))).
Proof.
  split.
  - eexists. split; [vm_compute; reflexivity|].
    apply (proj1 rowids_are_fresh 0 (normalize Examples.row_with_bad_profit)).
    vm_compute. reflexivity.
  - apply (proj2 rowids_are_fresh). repeat constructor. intros [].
Defined.

(** ** The natural key stays unique *)

Lemma eq_text_sym a b : Sql.eq_text a b = Sql.eq_text b a.
Proof. destruct a, b; try reflexivity. apply String.eqb_sym. Qed.

Lemma key_matches_sym r s :
  key_matches (first_buy_time r) (last_sell_time r) (Some (item r)) s
  = key_matches (first_buy_time s) (last_sell_time s) (Some (item s)) r.
Proof.
  unfold key_matches.
  now rewrite (eq_text_sym (first_buy_time s)), (eq_text_sym (last_sell_time s)),
    (eq_text_sym (Some (item s))).
Qed.

Lemma keys_unique_snoc t r :
  keys_unique t = true ->
  key_stored (first_buy_time r) (last_sell_time r) (Some (item r)) t = false ->
  keys_unique (t ++ [r]) = true.
Proof.
  induction t as [|x t IH]; intros Hu Hr; [reflexivity|].
  cbn [keys_unique app] in *. apply andb_prop in Hu as [Hx Hu].
  unfold key_stored in Hr. cbn [existsb] in Hr.
  apply orb_false_elim in Hr as [Hrx Hr].
  rewrite key_stored_app, (IH Hu Hr). apply negb_true_iff in Hx. rewrite Hx.
  unfold key_stored at 1. cbn [existsb]. now rewrite key_matches_sym, Hrx.
Qed.

Lemma keys_unique_sound t :
  keys_unique t = true ->
  forall pre r1 mid r2 post,
    t = pre ++ r1 :: mid ++ r2 :: post -> ~ same_full_key r1 r2.
Proof.
  intros Hu pre. revert t Hu. induction pre as [|x pre IH]; intros t Hu r1 mid r2 post ->.
  - cbn [app keys_unique] in Hu. apply andb_prop in Hu as [Hx _].
    apply negb_true_iff in Hx. intros (fb & ls & H1 & H2 & H3 & H4 & Hi).
    assert (key_stored (first_buy_time r1) (last_sell_time r1) (Some (item r1))
                       (mid ++ r2 :: post) = true) as Hs; [|congruence].
    rewrite H1, H3, Hi. apply key_of_stored_row; [|assumption..].
    apply in_or_app. right. now left.
  - cbn [app keys_unique] in Hu. apply andb_prop in Hu as [_ Hu].
    now apply (IH _ Hu r1 mid r2 post).
Qed.

(** X3. The import keeps the [UNIQUE] constraint: on a table in which no
    two rows carry the same natural key with both times present, no import
    ends with two such rows, whatever the batch and whatever fails. *)
Theorem import_keeps_natural_keys_unique (results : list CsvRow) (w : World) :
  keys_unique (table w) = true ->
  keys_unique (table (snd (processCsvFile results w))) = true
  /\ forall pre r1 mid r2 post,
       table (snd (processCsvFile results w)) = pre ++ r1 :: mid ++ r2 :: post ->
       ~ same_full_key r1 r2.
Proof.
  intros Hu.
  assert (Hu' : keys_unique (table (snd (processCsvFile results w))) = true).
  { rewrite processCsvFile_table.
    apply (process_rows_invariant (fun t => keys_unique t = true)); [|exact Hu].
    intros now record t r Ht Hr. apply keys_unique_snoc; [exact Ht|].
    pose proof (insert_or_ignore_row _ _ _ _ Hr) as (H1 & H2 & H3 & _ & _ & _ & _ & H4).
    now rewrite H1, H2, H3. }
  split; [exact Hu'|]. now apply keys_unique_sound.
Qed.

Lemma import_keeps_natural_keys_unique_witness :
  keys_unique (table (snd (processCsvFile
                             [Examples.row2; Examples.row_with_bad_profit; Examples.row1]
                             Examples.world_with_row1))) = true
  /\ exists r1 r2,
       table (snd (processCsvFile
                     [Examples.row2; Examples.row_with_bad_profit; Examples.row1]
                     Examples.world_with_row1)) = [r1; r2]
       /\ ~ same_full_key r1 r2.
Proof.
  destruct (import_keeps_natural_keys_unique
              [Examples.row2; Examples.row_with_bad_profit; Examples.row1]
              Examples.world_with_row1 eq_refl) as [Hu Hdistinct].
  split; [exact Hu|].
  eexists _, _. split; [vm_compute; reflexivity|].
  apply (Hdistinct [] _ [] _ []). vm_compute. reflexivity.
Defined.

(** ** Insert and lookup *)

(** X4. After [insertRecord] has resolved for a record with account, item,
    status and both times present, [recordExists] finds its key, whether the
    insert stored a row or skipped it. *)
Theorem inserted_record_exists (record : Rec.t) (w w1 : World) (res : RunResult) :
  storable record -> complete_key record ->
  insertRecord record w = (Ok res, w1) ->
  next_call_succeeds w1 ->
  recordExists (Rec.firstBuyTime record) (Rec.lastSellTime record) (Rec.item record) w1
  = (Ok true, advance w1).
Proof.
  intros ([a Ha] & [i Hi] & [s Hs]) ([fb Hfb] & [ls Hls]) Hins Hok.
  rewrite recordExists_run. unfold next_call_succeeds in Hok. rewrite Hok.
  f_equal. f_equal.
  rewrite insertRecord_run in Hins.
  destruct (ev_fail (fst (next_event w))); [discriminate|].
  destruct (insert_or_ignore _ record (table w)) as [row|] eqn:E.
  - injection Hins as _ <-. cbn [table].
    apply insert_or_ignore_row in E as (H1 & H2 & H3 & _).
    rewrite <- H3, Hfb, Hls. apply key_of_stored_row; [|congruence..].
    apply in_or_app. right. now left.
  - injection Hins as _ <-. rewrite advance_table.
    unfold insert_or_ignore in E. rewrite Ha, Hi, Hs in E. rewrite Hi.
    unfold key_stored. now destruct (existsb _ (table w)).
Qed.

Lemma inserted_record_exists_witness :
  recordExists (Some "T3") (Some "T2") (Some "Rune scimitar")
    (snd (insertRecord (normalize Examples.row_with_bad_profit) Examples.world_with_row1))
  = (Ok true,
     advance (snd (insertRecord (normalize Examples.row_with_bad_profit)
                                Examples.world_with_row1))).
Proof.
  apply (inserted_record_exists (normalize Examples.row_with_bad_profit)
           Examples.world_with_row1 _ {| lastID := 2; changes := 1 |}).
  - repeat split; vm_compute; eauto.
  - split; vm_compute; eauto.
  - vm_compute. reflexivity.
  - reflexivity.
Defined.

(** X5. [recordExists] is a read: it never changes the table, it rejects
    exactly when its call fails, and otherwise it answers true exactly when
    some stored row carries the three given values, none of them being
    [NULL]. *)
Theorem recordExists_reads_the_key_index (fb ls it : option string) (w : World) :
  table (snd (recordExists fb ls it w)) = table w
  /\ (fst (recordExists fb ls it w) = Err <-> ~ next_call_succeeds w)
  /\ (fst (recordExists fb ls it w) = Ok true
      <-> next_call_succeeds w
          /\ exists stored x y,
               In stored (table w)
               /\ fb = Some x /\ first_buy_time stored = Some x
               /\ ls = Some y /\ last_sell_time stored = Some y
               /\ it = Some (item stored)).
Proof.
  rewrite recordExists_run. cbn [fst snd]. unfold next_call_succeeds.
  split; [apply advance_table|].
  destruct (ev_fail (fst (next_event w))).
  - split; split; easy.
  - split; [split; [discriminate|intros H; now contradiction H]|].
    rewrite <- key_stored_spec. split.
    + intros [= ->]. now split.
    + intros [_ ->]. reflexivity.
Qed.

(** ** Imports on a store that does not fail *)

Lemma never_fails_next w : never_fails w -> next_call_succeeds w.
Proof.
  unfold never_fails, next_call_succeeds, next_event.
  destruct (events w); [reflexivity|]. now inversion 1.
Qed.

Lemma never_fails_events w w' :
  events w' = tl (events w) \/ events w' = tl (tl (events w)) ->
  never_fails w -> never_fails w'.
Proof.
  unfold never_fails. intros [-> | ->] H.
  - destruct (events w); [exact H|]. now inversion H.
  - destruct (events w) as [|e [|e' es]]; try exact H.
    + constructor.
    + inversion H as [|? ? _ H']. now inversion H'.
Qed.

(** What one iteration does when no call fails. *)
Lemma process_row_quiet c row w :
  never_fails w ->
  never_fails (snd (process_row c row w))
  /\ process_row c row w
     = if key_stored (Rec.firstBuyTime (normalize row)) (Rec.lastSellTime (normalize row))
                     (Rec.item (normalize row)) (table w)
       then (count_duplicate c, advance w)
       else match insert_or_ignore (ev_now (fst (next_event (advance w))))
                                   (normalize row) (table w) with
            | Some r => (count_new c, after_insert w r)
            | None => (c, advance (advance w))
            end.
Proof.
  intros Hw.
  assert (H1 : never_fails (advance w))
    by (eapply never_fails_events; [left; apply advance_events|exact Hw]).
  assert (H2 : never_fails (advance (advance w)))
    by (eapply never_fails_events; [left; apply advance_events|exact H1]).
  rewrite process_row_run. cbn zeta.
  rewrite (never_fails_next w Hw), (never_fails_next _ H1).
  split; [|reflexivity].
  destruct (key_stored _ _ _ (table w)); [exact H1|].
  destruct (insert_or_ignore _ (normalize row) (table w)); [|exact H2].
  eapply never_fails_events; [right; reflexivity|exact Hw].
Qed.

Lemma process_rows_never_fails results :
  forall c w, never_fails w -> never_fails (snd (process_rows c results w)).
Proof.
  induction results as [|row rest IH]; intros c w Hw; [exact Hw|].
  cbn [process_rows]. pose proof (process_row_quiet c row w Hw) as [H _].
  destruct (process_row c row w) as [c1 w1]. now apply IH.
Qed.

Lemma process_rows_grows results :
  forall c w, exists added, table (snd (process_rows c results w)) = table w ++ added.
Proof.
  induction results as [|row rest IH]; intros c w.
  - exists []. cbn. now rewrite app_nil_r.
  - cbn [process_rows]. pose proof (process_row_table c row w) as Ht.
    destruct (process_row c row w) as [c1 w1]. cbn [fst snd] in Ht.
    destruct (IH c1 w1) as [added Ha]. rewrite Ha.
    destruct Ht as [-> | (now & r & _ & -> & _)]; [now exists added|].
    exists (r :: added). now rewrite <- app_assoc.
Qed.

(** After a pass that did not fail, a row with both times present would be
    skipped by a further insert. *)
Lemma process_rows_settles results :
  forall c w,
    never_fails w ->
    Forall (fun row => complete_key (normalize row)) results ->
    Forall (fun row => forall now,
              insert_or_ignore now (normalize row)
                               (table (snd (process_rows c results w))) = None)
           results.
Proof.
  induction results as [|row rest IH]; intros c w Hw Hkeys; [constructor|].
  inversion Hkeys as [|? ? Hkey Hrest]; subst. cbn [process_rows].
  pose proof (process_row_quiet c row w Hw) as [Hw1 Hrun].
  destruct (process_row c row w) as [c1 w1]. cbn [snd] in Hw1.
  constructor; [|now apply IH].
  destruct (process_rows_grows rest c1 w1) as [added ->].
  intros now. apply (insert_or_ignore_mono 0).
  destruct Hkey as [[fb Hfb] [ls Hls]].
  destruct (key_stored _ _ _ (table w)) eqn:Hst.
  - injection Hrun as _ ->. rewrite advance_table.
    now apply insert_or_ignore_stored.
  - destruct (insert_or_ignore _ (normalize row) (table w)) as [r|] eqn:E.
    + injection Hrun as _ ->. cbn [after_insert table].
      apply insert_or_ignore_stored.
      apply insert_or_ignore_row in E as (H1 & H2 & H3 & _).
      rewrite <- H3, Hfb, Hls. apply key_of_stored_row; [|congruence..].
      apply in_or_app. right. now left.
    + injection Hrun as _ ->. rewrite !advance_table.
      now apply (insert_or_ignore_now _ 0) in E.
Qed.

Lemma process_rows_stable results :
  forall c w,
    never_fails w ->
    Forall (fun row => forall now,
              insert_or_ignore now (normalize row) (table w) = None) results ->
    table (snd (process_rows c results w)) = table w
    /\ newRecords (fst (process_rows c results w)) = newRecords c
    /\ errors (fst (process_rows c results w)) = errors c.
Proof.
  induction results as [|row rest IH]; intros c w Hw Hskip; [easy|].
  inversion Hskip as [|? ? Hrow Hrest]; subst. cbn [process_rows].
  pose proof (process_row_quiet c row w Hw) as [Hw1 Hrun].
  rewrite Hrow in Hrun.
  destruct (process_row c row w) as [c1 w1]. cbn [snd] in Hw1.
  assert (Ht : table w1 = table w /\ newRecords c1 = newRecords c
               /\ errors c1 = errors c).
  { destruct (key_stored _ _ _ (table w)); injection Hrun as -> ->;
      rewrite ?advance_table; easy. }
  destruct Ht as (Ht & Hn & He).
  rewrite <- Ht in Hrest. destruct (IH c1 w1 Hw1 Hrest) as (-> & -> & ->).
  easy.
Qed.

(** X6. Importing a batch a second time stores nothing: when no call fails
    and every row of the batch has both times present, a second pass over the
    same rows leaves the table as the first pass left it and counts neither a
    new record nor an error. *)
Theorem second_import_stores_nothing (results : list CsvRow) (c c' : Counters) (w : World) :
  never_fails w ->
  Forall (fun row => complete_key (normalize row)) results ->
  table (snd (process_rows c' results (snd (process_rows c results w))))
  = table (snd (process_rows c results w))
  /\ newRecords (fst (process_rows c' results (snd (process_rows c results w))))
     = newRecords c'
  /\ errors (fst (process_rows c' results (snd (process_rows c results w))))
     = errors c'.
Proof.
  intros Hw Hkeys. apply process_rows_stable.
  - now apply process_rows_never_fails.
  - now apply process_rows_settles.
Qed.

Lemma second_import_stores_nothing_witness :
  table (snd (process_rows no_counts [Examples.row1; Examples.row_with_bad_profit]
                (snd (process_rows no_counts [Examples.row1; Examples.row_with_bad_profit]
                        Examples.empty_world))))
  = table (snd (process_rows no_counts [Examples.row1; Examples.row_with_bad_profit]
                  Examples.empty_world))
  /\ length (table (snd (process_rows no_counts
                           [Examples.row1; Examples.row_with_bad_profit]
                           Examples.empty_world))) = 2%nat.
Proof.
  split; [|vm_compute; reflexivity].
  apply (second_import_stores_nothing [Examples.row1; Examples.row_with_bad_profit]
           no_counts no_counts Examples.empty_world).
  - constructor.
  - repeat constructor; vm_compute; eauto.
Defined.

(** X7. When no call fails, every row whose account, item and status are
    present is counted, as a new record or as a duplicate: over a batch of
    such rows [newRecords + duplicates] grows by the number of rows, and
    [errors] does not move. *)
Theorem storable_rows_are_all_counted (results : list CsvRow) (c : Counters) (w : World) :
  never_fails w ->
  Forall (fun row => storable (normalize row)) results ->
  (newRecords (fst (process_rows c results w))
   + duplicates (fst (process_rows c results w))
   = newRecords c + duplicates c + length results)%nat
  /\ errors (fst (process_rows c results w)) = errors c.
Proof.
  revert c w. induction results as [|row rest IH]; intros c w Hw Hst.
  - cbn. split; [lia|reflexivity].
  - inversion Hst as [|? ? Hrow Hrest]; subst. cbn [process_rows length].
    pose proof (process_row_quiet c row w Hw) as [Hw1 Hrun].
    destruct (process_row c row w) as [c1 w1]. cbn [snd] in Hw1.
    destruct (IH c1 w1 Hw1 Hrest) as [Hsum Herr]. rewrite Herr.
    destruct Hrow as ([a Ha] & [i Hi] & [s Hs]).
    destruct (key_stored _ _ _ (table w)) eqn:Hkey.
    + injection Hrun as -> _. cbn in *. split; [lia|reflexivity].
    + destruct (insert_or_ignore_fresh (ev_now (fst (next_event (advance w))))
                  (normalize row) (table w) a i s Ha Hi Hs Hkey) as [r Hr].
      rewrite Hr in Hrun. injection Hrun as -> _. cbn in *. split; [lia|reflexivity].
Qed.

Lemma storable_rows_are_all_counted_witness :
  (newRecords (fst (process_rows no_counts
                      [Examples.row1; Examples.row2; Examples.row_without_buy_time]
                      Examples.empty_world))
   + duplicates (fst (process_rows no_counts
                        [Examples.row1; Examples.row2; Examples.row_without_buy_time]
                        Examples.empty_world))
   = 3)%nat.
Proof.
  apply (storable_rows_are_all_counted
           [Examples.row1; Examples.row2; Examples.row_without_buy_time]
           no_counts Examples.empty_world).
  - constructor.
  - repeat constructor; vm_compute; eauto.
Defined.

(** * Further properties of the queries *)

(** ** The record list *)







(** ** Sums over the groups of a [GROUP BY] *)

Lemma sumZ_map_add {A} (f g : A -> Z) l :
  sumZ (map (fun x => f x + g x) l) = sumZ (map f l) + sumZ (map g l).
Proof. induction l as [|x l IH]; [reflexivity|]. unfold sumZ in *. cbn. lia. Qed.

Section GroupSums.
Context {A K : Type}.
Variable eqb : K -> K -> bool.
Hypothesis eqb_eq : forall a b, eqb a b = true <-> a = b.
Variable key : A -> K.
Variable weight : A -> Z.

Lemma sum_one_group k (groups : list K) v :
  List.NoDup groups ->
  sumZ (map (fun d => if eqb k d then v else 0) groups)
  = if existsb (eqb k) groups then v else 0.
Proof.
  induction 1 as [|d groups Hd _ IH]; [reflexivity|].
  cbn [map existsb]. unfold sumZ in *. cbn [fold_right]. rewrite IH.
  destruct (eqb k d) eqn:E; [|reflexivity].
  apply eqb_eq in E. subst d. cbn [orb].
  destruct (existsb (eqb k) groups) eqn:E'; [|lia].
  apply existsb_exists in E' as (d & Hin & Hd'). apply eqb_eq in Hd'. now subst.
Qed.

(** The sums of the groups add up to the sum over all rows when every row
    falls in a listed group. *)
Lemma sum_over_groups (groups : list K) (l : list A) :
  List.NoDup groups ->
  (forall x, In x l -> In (key x) groups) ->
  sumZ (map (fun d => sumZ (map weight (List.filter (fun x => eqb (key x) d) l))) groups)
  = sumZ (map weight l).
Proof.
  intros Hnd. induction l as [|x l IH]; intros Hin.
  - cbn. clear. induction groups as [|d groups IH]; [reflexivity|].
    unfold sumZ in *. cbn. now rewrite IH.
  - rewrite (map_ext _ (fun d => (if eqb (key x) d then weight x else 0)
                              + sumZ (map weight (List.filter (fun y => eqb (key y) d) l)))).
    2:{ intros d. cbn [List.filter]. now destruct (eqb (key x) d). }
    rewrite sumZ_map_add, IH by (intros y Hy; apply Hin; now right).
    rewrite sum_one_group by exact Hnd.
    assert (existsb (eqb (key x)) groups = true) as ->.
    { apply existsb_exists. exists (key x). split; [apply Hin; now left|].
      now apply eqb_eq. }
    reflexivity.
Qed.
End GroupSums.

Lemma import_days_NoDup t : List.NoDup (import_days t).
Proof. apply sort_by_NoDup, NoDup_nodup. Qed.

Lemma import_days_spec t d :
  In d (import_days t) <-> exists r, In r t /\ Sql.date (import_date r) = d.
Proof.
  unfold import_days. split.
  - intros H. apply (Permutation_in _ (Permutation_sym (sort_by_perm _ _))) in H.
    apply nodup_In, in_map_iff in H as (r & Hr & Hin). eauto.
  - intros (r & Hin & <-). apply (Permutation_in _ (sort_by_perm _ _)).
    apply nodup_In, in_map_iff. eauto.
Qed.

Lemma sum_over_days (weight : Row -> Z) t :
  sumZ (map (fun d => sumZ (map weight (List.filter (on_date d) t))) (import_days t))
  = sumZ (map weight t).
Proof.
  apply (sum_over_groups Z.eqb Z.eqb_eq (fun r => Sql.date (import_date r))).
  - apply import_days_NoDup.
  - intros r Hr. apply import_days_spec. eauto.
Qed.

Lemma length_as_sum {A} (l : list A) : Z.of_nat (length l) = sumZ (map (fun _ => 1) l).
Proof. induction l as [|x l IH]; [reflexivity|]. unfold sumZ in *. cbn [length map fold_right]. lia. Qed.

Lemma length_filter_as_sum {A} (f : A -> bool) (l : list A) :
  Z.of_nat (length (List.filter f l)) = sumZ (map (fun x => if f x then 1 else 0) l).
Proof.
  induction l as [|x l IH]; [reflexivity|]. cbn [List.filter map].
  unfold sumZ in *. destruct (f x); cbn [length fold_right]; lia.
Qed.

Lemma dailyReturns_as_map t :
  dailyReturns t
  = map (fun d => with_top_item (DailyQueries.group_row t d) (DailyQueries.top_of_day d t))
        (import_days t).
Proof. unfold dailyReturns, DailyQueries.daily, import_days. now rewrite map_map. Qed.

(** ** The daily buckets *)

(** X9. The daily rollup adds up to the dashboard: over all buckets the
    daily profits sum to [totalProfit], the finished trades to
    [completedFlips] and the trade counts to [totalRecords]. *)
Theorem daily_buckets_add_up_to_the_dashboard (t : Table) :
  sumZ (map dailyProfit (dailyReturns t)) = totalProfit (dashboardStats t)
  /\ sumZ (map (fun b => Z.of_nat (finishedTrades b)) (dailyReturns t))
     = completedFlips (dashboardStats t)
  /\ sumZ (map (fun b => Z.of_nat (totalTrades b)) (dailyReturns t))
     = totalRecords (dashboardStats t).
Proof.
  rewrite dailyReturns_as_map, !map_map.
  cbn [with_top_item dailyProfit finishedTrades totalTrades DailyQueries.group_row
       dr_dailyProfit dr_finishedTrades dr_totalTrades dashboardStats totalProfit
       completedFlips totalRecords].
  unfold Queries.totalProfit, Queries.completedFlips, Queries.totalRecords.
  rewrite scalar_sum, !scalar_count. split; [|split].
  - rewrite (sum_over_days (fun r => if status_is "FINISHED" r then profit r else 0)).
    apply sum_case_when.
  - rewrite (map_ext _ (fun d => sumZ (map (fun r => if status_is "FINISHED" r then 1 else 0)
                                           (List.filter (on_date d) t)))).
    2:{ intros d. now rewrite count_case_when, length_filter_as_sum. }
    now rewrite sum_over_days, length_filter_as_sum.
  - rewrite (map_ext _ (fun d => sumZ (map (fun _ => 1) (List.filter (on_date d) t)))).
    2:{ intros d. apply length_as_sum. }
    now rewrite sum_over_days, length_as_sum.
Qed.

Lemma filter_filter_bool {A} (f g : A -> bool) l :
  List.filter f (List.filter g l) = List.filter (fun x => g x && f x) l.
Proof.
  induction l as [|x l IH]; [reflexivity|]. cbn [List.filter].
  destruct (g x); cbn [List.filter andb]; [destruct (f x)|]; now rewrite IH.
Qed.

Lemma filter_disjoint_length {A} (f g : A -> bool) l :
  (forall x, f x = true -> g x = false) ->
  (length (List.filter f l) + length (List.filter g l) <= length l)%nat.
Proof.
  intros Hfg. induction l as [|x l IH]; [reflexivity|]. cbn [List.filter].
  destruct (f x) eqn:Ef.
  - rewrite (Hfg x Ef). cbn [length]. lia.
  - destruct (g x); cbn [length]; lia.
Qed.

Lemma sort_desc_nil {A} (key : A -> Z) l : sort_desc key l = [] -> l = [].
Proof.
  intros H. apply length_zero_iff_nil.
  rewrite <- (sort_by_length (fun y x => key x <? key y) l).
  unfold sort_desc in H. now rewrite H.
Qed.

(** The head of a list sorted in descending order is an element with the
    largest key. *)
Lemma sort_desc_head {A} (key : A -> Z) l x rest :
  sort_desc key l = x :: rest -> In x l /\ Forall (fun y => key y <= key x) l.
Proof.
  intros H. pose proof (sort_desc_sorted key l) as Hs.
  pose proof (sort_by_perm (fun y x => key x <? key y) l) as Hp.
  unfold sort_desc in *. rewrite H in Hs, Hp. split.
  - apply (Permutation_in _ (Permutation_sym Hp)). now left.
  - apply (Permutation_Forall (Permutation_sym Hp)).
    inversion Hs as [|? ? _ Hx]; subst. constructor; [lia|exact Hx].
Qed.

(** X10. [getDailyReturns] answers one bucket for each day on which a row
    was imported and no other, most recent day first. The trade count of a
    bucket is the number of rows of its day, which is at least 1, and its
    finished and active trades together never exceed it. *)
Theorem daily_buckets_cover_the_import_days (t : Table) :
  StronglySorted (fun a b => date b < date a) (dailyReturns t)
  /\ (forall d, In d (map date (dailyReturns t))
                <-> exists r, In r t /\ Sql.date (import_date r) = d)
  /\ Forall (fun b =>
               totalTrades b = length (rows_of_day (date b) t)
               /\ (1 <= totalTrades b)%nat
               /\ (finishedTrades b + activeTrades b <= totalTrades b)%nat)
            (dailyReturns t).
Proof.
  split; [apply dailyReturns_descending|]. split.
  - intros d. rewrite dailyReturns_dates. apply import_days_spec.
  - rewrite dailyReturns_as_map. apply List.Forall_map, List.Forall_forall.
    intros d Hd.
    cbn [with_top_item date totalTrades finishedTrades activeTrades
         DailyQueries.group_row dr_date dr_totalTrades dr_finishedTrades dr_activeTrades].
    rewrite !count_case_when. split; [now rewrite filter_on_date|]. split.
    + apply import_days_spec in Hd as (r & Hin & Hr).
      assert (In r (List.filter (on_date d) t)) as Hf.
      { apply filter_In. split; [exact Hin|]. now apply Z.eqb_eq. }
      destruct (List.filter (on_date d) t); [destruct Hf|cbn; lia].
    + apply filter_disjoint_length. intros r Hr.
      apply status_is_exact in Hr. unfold status_is, Sql.eq_text. rewrite Hr.
      reflexivity.
Qed.

(** X11. The top item of a bucket: on a day with no FINISHED row it is the
    text "No completed trades" with profit 0; otherwise it is the item and the
    profit of a FINISHED row of that day whose profit no other FINISHED row of
    the day exceeds. *)
Theorem top_item_is_the_best_finished_trade (t : Table) :
  Forall (fun b =>
            match rows_with_status "FINISHED" (rows_of_day (date b) t) with
            | [] => topItem b = "No completed trades" /\ topItemProfit b = 0
            | _ :: _ =>
                exists r,
                  In r (rows_with_status "FINISHED" (rows_of_day (date b) t))
                  /\ topItem b = item r /\ topItemProfit b = profit r
                  /\ Forall (fun r' => profit r' <= profit r)
                            (rows_with_status "FINISHED" (rows_of_day (date b) t))
            end)
         (dailyReturns t).
Proof.
  rewrite dailyReturns_as_map. apply List.Forall_map, List.Forall_forall.
  intros d _.
  cbn [with_top_item date topItem topItemProfit DailyQueries.group_row dr_date].
  unfold DailyQueries.top_of_day.
  rewrite <- filter_filter_bool, filter_status, filter_on_date.
  destruct (sort_desc profit (rows_with_status "FINISHED" (rows_of_day d t)))
    as [|x rest] eqn:E.
  - apply sort_desc_nil in E. now rewrite E.
  - apply sort_desc_head in E as [Hin Hmax].
    destruct (rows_with_status "FINISHED" (rows_of_day d t)) as [|y l]; [destruct Hin|].
    exists x. cbn [fst snd]. repeat split; assumption.
Qed.

(** ** The top items of the dashboard *)





(** ** The promises of the queries *)

Lemma calls_succeed_S n w :
  calls_succeed (S n) w <-> next_call_succeeds w /\ calls_succeed n (advance w).
Proof.
  split; [apply calls_succeed_next|].
  unfold calls_succeed, next_call_succeeds. rewrite advance_events.
  unfold next_event. destruct (events w) as [|e es]; cbn.
  - intros _. constructor.
  - intros [He Hes]. now constructor.
Qed.

Lemma calls_succeed_0 w : calls_succeed 0 w.
Proof. constructor. Qed.

(** A chain of statements resolves exactly when none of its calls fails. *)
Lemma getDashboardStats_resolves w :
  (calls_succeed 5 w /\ fst (getDashboardStats w) = Ok (dashboardStats (table w)))
  \/ (~ calls_succeed 5 w /\ fst (getDashboardStats w) = Err).
Proof.
  unfold getDashboardStats, bind, ret.
  rewrite !calls_succeed_S. unfold next_call_succeeds.
  repeat (rewrite query_run;
          match goal with
          | |- context [ev_fail (fst (next_event ?x))] =>
              destruct (ev_fail (fst (next_event x)))
          end;
          [right; cbn [fst]; split; [intuition discriminate|reflexivity]|]).
  left. cbn [fst]. rewrite !advance_table.
  split; [repeat split; apply calls_succeed_0|reflexivity].
Qed.

Lemma addTopItemsToDaily_resolves days :
  forall w,
    table (snd (addTopItemsToDaily days w)) = table w
    /\ ((calls_succeed (length days) w
         /\ fst (addTopItemsToDaily days w)
            = Ok (map (fun day => with_top_item day
                                    (DailyQueries.top_of_day (dr_date day) (table w)))
                      days))
        \/ (~ calls_succeed (length days) w /\ fst (addTopItemsToDaily days w) = Err)).
Proof.
  induction days as [|day rest IH]; intros w.
  - split; [reflexivity|]. left. split; [apply calls_succeed_0|reflexivity].
  - cbn [addTopItemsToDaily length map]. unfold bind, ret. rewrite query_run.
    rewrite calls_succeed_S. unfold next_call_succeeds.
    destruct (ev_fail (fst (next_event w))).
    + cbn [fst snd]. split; [apply advance_table|].
      right. split; [intuition discriminate|reflexivity].
    + destruct (IH (advance w)) as [Ht Hcases]. rewrite advance_table in *.
      destruct (addTopItemsToDaily rest (advance w)) as [[days'|] w'];
        cbn [fst snd] in *; (split; [exact Ht|]).
      * left. destruct Hcases as [[Hok [= ->]] | [_ [=]]]. now split.
      * right. destruct Hcases as [[_ [=]] | [Hno _]]. split; [tauto|reflexivity].
Qed.

Lemma getDailyReturns_resolves w :
  table (snd (getDailyReturns w)) = table w
  /\ ((calls_succeed (S (length (import_days (table w)))) w
       /\ fst (getDailyReturns w) = Ok (dailyReturns (table w)))
      \/ (~ calls_succeed (S (length (import_days (table w)))) w
          /\ fst (getDailyReturns w) = Err)).
Proof.
  unfold getDailyReturns, bind. rewrite query_run, calls_succeed_S.
  unfold next_call_succeeds.
  destruct (ev_fail (fst (next_event w))).
  - cbn [fst snd]. split; [apply advance_table|].
    right. split; [intuition discriminate|reflexivity].
  - destruct (addTopItemsToDaily_resolves (DailyQueries.daily (table w)) (advance w))
      as [Ht Hcases].
    rewrite advance_table in *.
    assert (Hlen : length (DailyQueries.daily (table w)) = length (import_days (table w)))
      by (unfold DailyQueries.daily, import_days; apply length_map).
    rewrite Hlen in Hcases. split; [exact Ht|].
    destruct Hcases as [[Hok ->] | [Hno ->]]; [left|right]; (split; [tauto|reflexivity]).
Qed.

(** X13. The three aggregation promises are reads that resolve exactly when
    none of their statements fails: [getDashboardStats] issues 5 statements,
    [getDailyReturns] and [getTimelineData] one statement and one more for
    each import day; each resolves with the aggregate of the table as it is,
    rejects as soon as one statement fails, and never changes the table. *)
Theorem aggregation_promises_resolve_or_reject (randoms : list Q) (w : World) :
  (table (snd (getDashboardStats w)) = table w
   /\ (fst (getDashboardStats w) = Ok (dashboardStats (table w)) <-> calls_succeed 5 w)
   /\ (fst (getDashboardStats w) = Err <-> ~ calls_succeed 5 w))
  /\ (table (snd (getDailyReturns w)) = table w
      /\ (fst (getDailyReturns w) = Ok (dailyReturns (table w))
          <-> calls_succeed (S (length (import_days (table w)))) w)
      /\ (fst (getDailyReturns w) = Err
          <-> ~ calls_succeed (S (length (import_days (table w)))) w))
  /\ (table (snd (getTimelineData randoms w)) = table w
      /\ (fst (getTimelineData randoms w) = Ok (timelineData randoms (table w))
          <-> calls_succeed (S (length (import_days (table w)))) w)
      /\ (fst (getTimelineData randoms w) = Err
          <-> ~ calls_succeed (S (length (import_days (table w)))) w)).
Proof.
  split; [|split].
  - split; [apply getDashboardStats_table|].
    destruct (getDashboardStats_resolves w) as [[Hok ->] | [Hno ->]];
      split; split; try easy.
  - destruct (getDailyReturns_resolves w) as [Ht [[Hok ->] | [Hno ->]]];
      (split; [exact Ht|]); split; split; try easy.
  - unfold getTimelineData, bind, ret, timelineData.
    destruct (getDailyReturns_resolves w) as [Ht Hcases].
    destruct (getDailyReturns w) as [[days|] w']; cbn [fst snd] in *;
      (split; [exact Ht|]).
    + destruct Hcases as [[Hok [= ->]] | [_ [=]]]. split; split; try easy.
    + destruct Hcases as [[_ [=]] | [Hno _]]. split; split; try easy.
Qed.

(** ** The shape of the timeline *)

Lemma forEach_flips days :
  forall st randoms,
    Forall (fun p => flips p = totalTrades (day p)) (timeline_forEach st randoms days).
Proof.
  induction days as [|d days IH]; intros st randoms; [constructor|].
  cbn [timeline_forEach timeline_day]. constructor; [reflexivity|apply IH].
Qed.

Lemma Qfloor_tenth q : (0 <= q)%Q -> (q < 1)%Q -> 1 <= Qfloor (q * 10) + 1 <= 10.
Proof.
  intros H0 H1.
  assert (0 <= Qfloor (q * 10)).
  { change 0 with (Qfloor 0). apply Qfloor_resp_le.
    rewrite <- (Qmult_0_l 10). now apply Qmult_le_compat_r. }
  assert (Qfloor (q * 10) < 10).
  { rewrite Zlt_Qlt. apply (Qle_lt_trans _ (q * 10)); [apply Qfloor_le|].
    change (inject_Z 10) with (1 * 10)%Q. now apply Qmult_lt_compat_r. }
  lia.
Qed.

Lemma forEach_items_range days :
  forall st randoms,
    Forall (fun q => (0 <= q)%Q /\ (q < 1)%Q) randoms ->
    Forall (fun p => 1 <= items p <= 10) (timeline_forEach st randoms days).
Proof.
  induction days as [|d days IH]; intros st randoms Hr; [constructor|].
  cbn [timeline_forEach timeline_day]. constructor.
  - cbn [items]. destruct Hr as [|q randoms [H0 H1] _]; cbn [hd].
    + vm_compute. split; discriminate.
    + now apply Qfloor_tenth.
  - apply IH. destruct Hr; [constructor|assumption].
Qed.

Lemma Forall_of_rev {A} (P : A -> Prop) (l : list A) : Forall P (rev l) -> Forall P l.
Proof.
  intros H. apply List.Forall_forall. intros x Hx.
  rewrite List.Forall_forall in H. apply H. now apply in_rev in Hx.
Qed.

(** X14. The timeline has one point for each daily bucket, in the order in
    which [getDailyReturns] answers them (most recent first), and each point
    carries its bucket unchanged with [flips] equal to the trade count; when
    [Math.random()] answers in the interval from 0 to 1, every [items] lies
    between 1 and 10. *)
Theorem timeline_points_follow_the_buckets (randoms : list Q) (t : Table) :
  map day (timelineData randoms t) = dailyReturns t
  /\ Forall (fun p => flips p = totalTrades (day p)) (timelineData randoms t)
  /\ (Forall (fun q => (0 <= q)%Q /\ (q < 1)%Q) randoms ->
      Forall (fun p => 1 <= items p <= 10) (timelineData randoms t)).
Proof.
  pose proof (timelineData_ascending randoms t) as Hasc.
  split; [|split].
  - rewrite <- (rev_involutive (timelineData randoms t)), Hasc, map_rev, forEach_days.
    apply rev_involutive.
  - apply Forall_of_rev. rewrite Hasc. apply forEach_flips.
  - intros Hr. apply Forall_of_rev. rewrite Hasc. now apply forEach_items_range.
Qed.

Lemma timeline_points_follow_the_buckets_witness :
  Forall (fun p => 1 <= items p <= 10)
         (timelineData [1 # 2; 99 # 100]%Q Examples.loss_table).
Proof.
  apply (proj2 (proj2 (timeline_points_follow_the_buckets
                         [1 # 2; 99 # 100]%Q Examples.loss_table))).
  repeat constructor; discriminate.
Defined.

(** ** Net worth under non-negative profits *)

Lemma js_div_nonneg x y : 0 <= x -> 0 < y -> (0 <= js_div x y)%Q.
Proof.
  intros Hx Hy. unfold js_div. apply Qle_shift_div_l.
  - unfold Qlt. cbn. lia.
  - rewrite Qmult_0_l. unfold Qle. cbn. lia.
Qed.

Lemma forEach_monotone days :
  forall st randoms,
    Forall (fun d => 0 <= dailyProfit d) days ->
    StronglySorted (fun a b => netWorth a <= netWorth b) (timeline_forEach st randoms days)
    /\ Forall (fun p => cumulativeNetWorth st <= netWorth p
                        /\ (0 <= roi p)%Q /\ (0 <= growth p)%Q)
              (timeline_forEach st randoms days).
Proof.
  induction days as [|d days IH]; intros st randoms Hd; [split; constructor|].
  inversion Hd as [|? ? Hd0 Hrest]; subst.
  cbn [timeline_forEach timeline_day].
  destruct (IH {| cumulativeNetWorth := cumulativeNetWorth st + dailyProfit d;
                  previousDayNetWorth := cumulativeNetWorth st + dailyProfit d |}
               (tl randoms) Hrest) as [Hs Hall].
  cbn [cumulativeNetWorth] in Hall. split.
  - constructor; [exact Hs|]. eapply List.Forall_impl; [|exact Hall].
    cbn beta. cbn [netWorth]. intros p (Hp & _). exact Hp.
  - constructor.
    + cbn [netWorth roi growth]. split; [lia|]. split.
      * destruct (Z.ltb_spec 0 (Z.of_nat (finishedTrades d) * 100000));
          [apply js_div_nonneg; lia|apply Qle_refl].
      * destruct (Z.ltb_spec 0 (previousDayNetWorth st));
          [apply js_div_nonneg; lia|apply Qle_refl].
    + eapply List.Forall_impl; [|exact Hall]. cbn beta. intros p (Hp & Hr). split; [lia|exact Hr].
Qed.

Lemma sumZ_nonneg l : Forall (fun x => 0 <= x) l -> 0 <= sumZ l.
Proof. induction 1; unfold sumZ in *; cbn; lia. Qed.

(** X15. When no FINISHED row has a negative profit, the net worth of the
    timeline never decreases from one day to the next (the list, most recent
    first, is non-increasing), no point lies below the starting net worth,
    and no ROI or growth is negative. *)
Theorem timeline_never_falls_without_losses (randoms : list Q) (t : Table) :
  Forall (fun r => status r = "FINISHED" -> 0 <= profit r) t ->
  StronglySorted (fun a b => netWorth b <= netWorth a) (timelineData randoms t)
  /\ Forall (fun p => startingNetWorth <= netWorth p
                      /\ (0 <= roi p)%Q /\ (0 <= growth p)%Q)
            (timelineData randoms t).
Proof.
  intros Hprofit.
  assert (Hdays : Forall (fun d => 0 <= dailyProfit d) (rev (dailyReturns t))).
  { apply List.Forall_forall. intros b Hb. apply in_rev in Hb.
    rewrite dailyReturns_as_map in Hb. apply in_map_iff in Hb as (d & <- & _).
    cbn [with_top_item dailyProfit DailyQueries.group_row dr_dailyProfit].
    apply sumZ_nonneg, List.Forall_map, List.Forall_forall. intros r Hr.
    apply filter_In in Hr as [Hr _]. rewrite List.Forall_forall in Hprofit.
    destruct (status_is "FINISHED" r) eqn:E; [|lia].
    apply Hprofit; [exact Hr|now apply status_is_exact]. }
  pose proof (timelineData_ascending randoms t) as Hasc.
  destruct (forEach_monotone (rev (dailyReturns t))
              {| cumulativeNetWorth := startingNetWorth;
                 previousDayNetWorth := startingNetWorth |} randoms Hdays)
    as [Hs Hall].
  rewrite <- Hasc in Hs, Hall. split.
  - apply strongly_sorted_rev in Hs. now rewrite rev_involutive in Hs.
  - now apply Forall_of_rev.
Qed.

Lemma timeline_never_falls_without_losses_witness :
  map netWorth (timelineData [] Examples.gains_table) = [198001500; 198000500]
  /\ StronglySorted (fun a b => netWorth b <= netWorth a)
                    (timelineData [] Examples.gains_table)
  /\ Forall (fun p => startingNetWorth <= netWorth p
                      /\ (0 <= roi p)%Q /\ (0 <= growth p)%Q)
            (timelineData [] Examples.gains_table).
Proof.
  split; [vm_compute; reflexivity|].
  apply (timeline_never_falls_without_losses [] Examples.gains_table).
  repeat constructor; cbn; intros H; first [lia | discriminate H].
Defined.

(** ** The weekly comparison *)




(** ** Numeric cells with trailing text *)

Lemma digit_not_space c v : Js.digit_value 10 c = Some v -> Js.is_white_space c = false.
Proof. destruct c as [[] [] [] [] [] [] [] []]; vm_compute; congruence. Qed.

Lemma digit_not_sign c v rest :
  Js.digit_value 10 c = Some v -> Js.strip_sign (String c rest) = (1, String c rest).
Proof. destruct c as [[] [] [] [] [] [] [] []]; vm_compute; congruence. Qed.

Lemma digit_not_prefix c v d rest :
  Js.digit_value 10 c = Some v -> d <> "x"%char -> d <> "X"%char ->
  Js.strip_hex_prefix (String c (String d rest)) = (10, String c (String d rest)).
Proof.
  intros Hc Hx HX.
  destruct c as [[] [] [] [] [] [] [] []]; try reflexivity;
    try (vm_compute in Hc; discriminate).
  destruct d as [[] [] [] [] [] [] [] []]; try reflexivity; congruence.
Qed.

Lemma digit_alone_not_prefix c : Js.strip_hex_prefix (String c "") = (10, String c "").
Proof. destruct c as [[] [] [] [] [] [] [] []]; reflexivity. Qed.

Lemma digit_not_x c v : Js.digit_value 10 c = Some v -> c <> "x"%char /\ c <> "X"%char.
Proof. intros H. split; intros ->; vm_compute in H; discriminate. Qed.

Lemma append_nil (s : string) : ("" ++ s)%string = s.
Proof. reflexivity. Qed.

Lemma append_cons c (s s' : string) : (String c s ++ s')%string = String c (s ++ s')%string.
Proof. reflexivity. Qed.

Lemma parse_digits_tail ds c rest :
  Js.digit_value 10 c = None ->
  forall acc,
    Js.parse_digits 10 acc (ds ++ String c rest)%string = Js.parse_digits 10 acc ds.
Proof.
  intros Hc. induction ds as [|d ds IH]; intros acc;
    rewrite ?append_nil, ?append_cons; cbn [Js.parse_digits].
  - now rewrite Hc.
  - destruct (Js.digit_value 10 d); [apply IH|reflexivity].
Qed.

Lemma parseInt_string_tail ds c rest :
  all_digits ds = true -> ds <> "" ->
  Js.digit_value 10 c = None -> c <> "x"%char -> c <> "X"%char ->
  Js.parseInt_string (ds ++ String c rest)%string = Js.parseInt_string ds.
Proof.
  intros Hds Hne Hc Hx HX. destruct ds as [|d ds]; [congruence|].
  pose proof (parse_digits_tail (String d ds) c rest Hc None) as Htail.
  cbn [all_digits] in Hds. destruct (Js.digit_value 10 d) as [v|] eqn:Hd; [|discriminate].
  unfold Js.parseInt_string. rewrite append_cons in *. cbn [Js.trim_start].
  rewrite (digit_not_space d v Hd), !(digit_not_sign d v _ Hd).
  destruct ds as [|e ds].
  - rewrite append_nil in *.
    rewrite (digit_not_prefix d v c rest Hd Hx HX), digit_alone_not_prefix.
    now rewrite Htail.
  - cbn [all_digits] in Hds. destruct (Js.digit_value 10 e) as [u|] eqn:He; [|discriminate].
    destruct (digit_not_x e u He) as [Hex HeX]. rewrite append_cons in *.
    rewrite !(digit_not_prefix d v e _ Hd Hex HeX). now rewrite Htail.
Qed.

(** X17. A numeric cell is read up to its first character that is not a
    digit: for each of the seven numeric fields, a row whose cell under the
    human-readable header is a non-empty run of decimal digits followed by
    other text (not starting with x or X) normalises to the same number as
    the row with the digits alone in that cell. *)
Theorem numeric_cells_are_read_up_to_the_first_non_digit
        (row : CsvRow) (ds : string) (c : ascii) (rest : string) :
  all_digits ds = true -> ds <> "" ->
  Js.digit_value 10 c = None -> c <> "x"%char -> c <> "X"%char ->
  Forall (fun f =>
            row !! fst (fst f) = Some (ds ++ String c rest)%string ->
            snd f (normalize row) = snd f (normalize (<[fst (fst f) := ds]> row)))
         numeric_fields.
Proof.
  intros Hds Hne Hc Hx HX.
  assert (Hfield : forall label key,
             row !! label = Some (ds ++ String c rest)%string ->
             int_field row label key = int_field (<[label := ds]> row) label key).
  { intros label key Hcell. unfold int_field.
    rewrite Hcell, lookup_insert_eq. unfold Js.or_str.
    destruct (String.eqb_spec (ds ++ String c rest)%string "") as [E|_].
    { destruct ds; discriminate. }
    destruct (String.eqb_spec ds "") as [E|_]; [contradiction|].
    cbn [Js.parseInt]. now rewrite parseInt_string_tail. }
  unfold numeric_fields. repeat constructor; cbn [fst snd]; intros Hcell;
    cbn [normalize Rec.bought Rec.sold Rec.avgBuyPrice Rec.avgSellPrice Rec.tax
         Rec.profit Rec.profitEa]; now apply Hfield.
Qed.

Lemma numeric_cells_are_read_up_to_the_first_non_digit_witness :
  Rec.profit (normalize (<["Profit" := "1,234"]> Examples.row1))
  = Rec.profit (normalize (<["Profit" := "1"]> (<["Profit" := "1,234"]> Examples.row1)))
  /\ Rec.profit (normalize (<["Profit" := "1,234"]> Examples.row1)) = 1.
Proof.
  split; [|vm_compute; reflexivity].
  pose proof (numeric_cells_are_read_up_to_the_first_non_digit
                (<["Profit" := "1,234"]> Examples.row1) "1" ","%char "234"
                eq_refl ltac:(discriminate) eq_refl ltac:(discriminate)
                ltac:(discriminate)) as Hall.
  unfold numeric_fields in Hall. rewrite List.Forall_forall in Hall.
  apply (Hall ("Profit", "profit", Rec.profit)).
  - cbn. tauto.
  - vm_compute. reflexivity.
Defined.

(** ** When [insertRecord] stores a row *)

Lemma insert_or_ignore_spec now record t :
  (exists row, insert_or_ignore now record t = Some row)
  <-> storable record
      /\ key_stored (Rec.firstBuyTime record) (Rec.lastSellTime record)
                    (Rec.item record) t = false.
Proof.
  unfold insert_or_ignore, storable, key_stored. split.
  - intros [row H].
    destruct (Rec.account record), (Rec.item record), (Rec.status record);
      try discriminate.
    destruct (existsb _ t); [discriminate|]. repeat split; eauto.
  - intros [([a ->] & [i ->] & [s ->]) ->]. eauto.
Qed.

(** X18. When its call succeeds, [insertRecord] resolves with [changes]
    equal to 1 or 0. It is 1 exactly when the account, item and status of the
    record are present and the index does not find its key; the table then
    gains one row that holds the fields of the record, stamped with the
    current time, and [lastID] is the rowid of that row. Otherwise the table
    is left as it is and [lastID] is the rowid of the last row inserted
    before. When the call fails the promise rejects and nothing is stored. *)
Theorem insertRecord_stores_or_skips (record : Rec.t) (w : World) :
  (next_call_succeeds w ->
   exists res w',
     insertRecord record w = (Ok res, w')
     /\ (changes res = 1
         <-> storable record
             /\ key_stored (Rec.firstBuyTime record) (Rec.lastSellTime record)
                           (Rec.item record) (table w) = false)
     /\ ((changes res = 1
          /\ exists row,
               table w' = table w ++ [row] /\ stores row record
               /\ import_date row = ev_now (fst (next_event w))
               /\ lastID res = id row /\ last_rowid w' = id row)
         \/ (changes res = 0 /\ table w' = table w
             /\ lastID res = last_rowid w /\ last_rowid w' = last_rowid w)))
  /\ (~ next_call_succeeds w ->
      fst (insertRecord record w) = Err
      /\ table (snd (insertRecord record w)) = table w).
Proof.
  rewrite insertRecord_run. unfold next_call_succeeds. split.
  - intros ->.
    pose proof (insert_or_ignore_spec (ev_now (fst (next_event w))) record (table w))
      as Hspec.
    destruct (insert_or_ignore _ record (table w)) as [row|] eqn:E.
    + eexists _, _. split; [reflexivity|]. cbn [changes lastID table last_rowid].
      split; [split; [intros _; apply Hspec; eauto|reflexivity]|].
      left. split; [reflexivity|]. exists row.
      apply insert_or_ignore_stores in E as (Hs & _ & Hd).
      split; [reflexivity|]. split; [exact Hs|]. split; [exact Hd|]. split; reflexivity.
    + eexists _, _. split; [reflexivity|]. cbn [changes lastID].
      split.
      * split; [discriminate|]. intros H. apply Hspec in H as [row [=]].
      * right. now rewrite advance_table, advance_last_rowid.
  - intros Hfail. destruct (ev_fail (fst (next_event w))); [|now contradiction Hfail].
    cbn [fst snd]. split; [reflexivity|apply advance_table].
Qed.

Lemma insertRecord_stores_or_skips_witness :
  (exists res w',
     insertRecord (normalize Examples.row_with_bad_profit) Examples.world_with_row1
     = (Ok res, w')
     /\ changes res = 1 /\ length (table w') = 2%nat)
  /\ fst (insertRecord (normalize Examples.row1) Examples.world_failing_first_call) = Err.
Proof.
  split.
  - destruct (proj1 (insertRecord_stores_or_skips
                       (normalize Examples.row_with_bad_profit) Examples.world_with_row1))
      as (res & w' & Hrun & Hiff & Hcases); [reflexivity|].
    exists res, w'. split; [exact Hrun|].
    assert (Hone : changes res = 1).
    { apply Hiff. split; [repeat split; vm_compute; eauto|vm_compute; reflexivity]. }
    split; [exact Hone|].
    destruct Hcases as [(_ & row & -> & _) | (Hzero & _)]; [|lia].
    rewrite length_app. reflexivity.
  - apply (proj2 (insertRecord_stores_or_skips
                    (normalize Examples.row1) Examples.world_failing_first_call)).
    vm_compute. discriminate.
Defined.

(** ** Uploading a file twice *)

Lemma never_fails_calls n w : never_fails w -> calls_succeed n w.
Proof. unfold never_fails, calls_succeed. apply Forall_take. Qed.

Lemma never_fails_advance w : never_fails w -> never_fails (advance w).
Proof. apply never_fails_events. left. apply advance_events. Qed.

Lemma getDashboardStats_quiet w :
  never_fails w ->
  fst (getDashboardStats w) = Ok (dashboardStats (table w))
  /\ never_fails (snd (getDashboardStats w)).
Proof.
  intros Hw.
  pose proof (never_fails_advance _ Hw) as H1.
  pose proof (never_fails_advance _ H1) as H2.
  pose proof (never_fails_advance _ H2) as H3.
  pose proof (never_fails_advance _ H3) as H4.
  pose proof (never_fails_advance _ H4) as H5.
  unfold getDashboardStats, bind, ret.
  rewrite query_run, (never_fails_next _ Hw), query_run, (never_fails_next _ H1),
    query_run, (never_fails_next _ H2), query_run, (never_fails_next _ H3),
    query_run, (never_fails_next _ H4).
  cbn [fst snd]. rewrite !advance_table. now split.
Qed.

Lemma process_rows_all_duplicates results :
  forall c w,
    never_fails w ->
    Forall (fun row =>
              key_stored (Rec.firstBuyTime (normalize row)) (Rec.lastSellTime (normalize row))
                         (Rec.item (normalize row)) (table w) = true) results ->
    fst (process_rows c results w)
    = {| newRecords := newRecords c;
         duplicates := length results + duplicates c;
         errors := errors c |}
    /\ table (snd (process_rows c results w)) = table w.
Proof.
  induction results as [|row rest IH]; intros c w Hw Hkeys.
  - cbn. now destruct c.
  - inversion Hkeys as [|? ? Hkey Hrest]; subst. cbn [process_rows].
    pose proof (process_row_quiet c row w Hw) as [Hw1 Hrun]. rewrite Hkey in Hrun.
    destruct (process_row c row w) as [c1 w1]. injection Hrun as -> ->.
    cbn [snd] in Hw1. rewrite <- (advance_table w) in Hrest.
    destruct (IH (count_duplicate c) (advance w) Hw1 Hrest) as [-> ->].
    cbn [count_duplicate newRecords duplicates errors length].
    rewrite advance_table. split; [f_equal; lia|reflexivity].
Qed.

Lemma ignored_storable_is_stored now record t :
  storable record -> insert_or_ignore now record t = None ->
  key_stored (Rec.firstBuyTime record) (Rec.lastSellTime record) (Rec.item record) t
  = true.
Proof.
  intros Hst Hnone.
  destruct (key_stored _ _ _ t) eqn:E; [reflexivity|].
  destruct (proj2 (insert_or_ignore_spec now record t) (conj Hst E)) as [row Hrow].
  congruence.
Qed.

(** X19. Uploading the same file a second time stores nothing and answers
    the warning redirect: when no call fails and every row of a non-empty
    file has its account, item, status and both times present, the second
    upload reports every row as a duplicate, with the record count that the
    first upload left. *)
Theorem second_upload_answers_the_duplicate_warning (results : list CsvRow) (w : World) :
  results <> [] ->
  never_fails w ->
  Forall (fun row => storable (normalize row) /\ complete_key (normalize row)) results ->
  fst (post_upload (Some results) (snd (post_upload (Some results) w)))
  = WarningRedirect (length results)
                    (Z.of_nat (length (table (snd (post_upload (Some results) w)))))
  /\ table (snd (post_upload (Some results) (snd (post_upload (Some results) w))))
     = table (snd (post_upload (Some results) w)).
Proof.
  intros Hne Hw Hrows.
  assert (Hkeys : Forall (fun row => complete_key (normalize row)) results)
    by (eapply List.Forall_impl; [|exact Hrows]; cbn beta; tauto).
  (* the connection after the first upload *)
  assert (Hfirst : snd (post_upload (Some results) w)
                   = snd (getDashboardStats (snd (process_rows no_counts results w)))).
  { unfold post_upload, processCsvFile, no_counts.
    destruct (process_rows _ results w) as [c1 w1]. unfold bind, ret. cbn [snd].
    now destruct (getDashboardStats w1) as [[stats|] w2]. }
  pose proof (process_rows_never_fails results no_counts w Hw) as Hw1.
  pose proof (process_rows_settles results no_counts w Hw Hkeys) as Hsettled.
  destruct (getDashboardStats_quiet _ Hw1) as [_ Hw2].
  pose proof (getDashboardStats_table (snd (process_rows no_counts results w))) as Ht2.
  rewrite <- Hfirst in Hw2, Ht2. set (w2 := snd (post_upload (Some results) w)) in *.
  assert (Hstored : Forall (fun row =>
             key_stored (Rec.firstBuyTime (normalize row)) (Rec.lastSellTime (normalize row))
                        (Rec.item (normalize row)) (table w2) = true) results).
  { rewrite Ht2. apply List.Forall_forall. intros row Hin.
    rewrite List.Forall_forall in Hsettled, Hrows.
    apply (ignored_storable_is_stored 0); [apply (Hrows row Hin)|apply (Hsettled row Hin)]. }
  destruct (process_rows_all_duplicates results no_counts w2 Hw2 Hstored) as [Hc Ht3].
  pose proof (process_rows_never_fails results no_counts w2 Hw2) as Hw3.
  destruct (getDashboardStats_quiet _ Hw3) as [Hstats _].
  pose proof (getDashboardStats_table (snd (process_rows no_counts results w2))) as Ht4.
  unfold post_upload, processCsvFile. fold no_counts.
  destruct (process_rows no_counts results w2) as [c3 w3]. cbn [fst snd] in *.
  unfold bind, ret. destruct (getDashboardStats w3) as [[stats|] w4]; [|discriminate].
  cbn [fst snd] in *. injection Hstats as ->. subst c3.
  cbn [ir_newRecords ir_duplicates totalInDb newRecords duplicates no_counts
       dashboardStats totalRecords].
  unfold Queries.totalRecords. rewrite scalar_count, Nat.add_0_r, Ht3.
  split; [|now rewrite Ht4, Ht3].
  destruct results; [congruence|reflexivity].
Qed.

Lemma second_upload_answers_the_duplicate_warning_witness :
  fst (post_upload (Some [Examples.row1; Examples.row_with_bad_profit])
         (snd (post_upload (Some [Examples.row1; Examples.row_with_bad_profit])
                 Examples.empty_world)))
  = WarningRedirect 2 2.
Proof.
  apply (proj1 (second_upload_answers_the_duplicate_warning
                  [Examples.row1; Examples.row_with_bad_profit] Examples.empty_world
                  ltac:(discriminate) ltac:(constructor)
                  ltac:(repeat constructor; vm_compute; eauto))).
Defined.

(** * Further properties of the routes *)

Lemma getTimelineData_table randoms w :
  table (snd (getTimelineData randoms w)) = table w.
Proof.
  unfold getTimelineData, bind, ret.
  pose proof (getDailyReturns_resolves w) as [Ht _].
  now destruct (getDailyReturns w) as [[days|] w'].
Qed.

Lemma getRecords_table wanted w : table (snd (getRecords wanted w)) = table w.
Proof. unfold getRecords. rewrite query_run. apply advance_table. Qed.

Lemma eq_text_some a s : Sql.eq_text a (Some s) = true <-> a = Some s.
Proof.
  unfold Sql.eq_text. destruct a as [x|]; [|easy].
  rewrite String.eqb_eq. split; congruence.
Qed.

(** What a request does to the session and to the table. *)
Lemma handle_effect req s w :
  (table (snd (handle req s w)) = table w
   \/ (isAdmin s = true /\ exists results, req = PostUpload (Some results)))
  /\ (isAdmin (snd (fst (handle req s w))) = true
      <-> admin_login req \/ (isAdmin s = true /\ req <> GetLogout)).
Proof.
  unfold admin_login.
  destruct req as [ | | randoms | wanted | | username password | | | file | ];
    cbn [handle].
  - pose proof (getDashboardStats_table w).
    destruct (getDashboardStats w) as [[stats|] w']; cbn [fst snd] in *;
      (split; [now left|]); split; [right; easy|intros [[=]|[Hs _]]; exact Hs
                                    |right; easy|intros [[=]|[Hs _]]; exact Hs].
  - pose proof (getDailyReturns_resolves w) as [Ht _].
    destruct (getDailyReturns w) as [[days|] w']; cbn [fst snd] in *;
      (split; [now left|]); split; [right; easy|intros [[=]|[Hs _]]; exact Hs
                                    |right; easy|intros [[=]|[Hs _]]; exact Hs].
  - pose proof (getTimelineData_table randoms w).
    destruct (getTimelineData randoms w) as [[points|] w']; cbn [fst snd] in *;
      (split; [now left|]); split; [right; easy|intros [[=]|[Hs _]]; exact Hs
                                    |right; easy|intros [[=]|[Hs _]]; exact Hs].
  - pose proof (getRecords_table wanted w).
    destruct (getRecords wanted w) as [[rows|] w']; cbn [fst snd] in *;
      (split; [now left|]); split; [right; easy|intros [[=]|[Hs _]]; exact Hs
                                    |right; easy|intros [[=]|[Hs _]]; exact Hs].
  - cbn [fst snd]. split; [now left|]. split; [right; easy|intros [[=]|[Hs _]]; exact Hs].
  - destruct (Sql.eq_text username (Some adminUsername)
              && Sql.eq_text password (Some adminPassword)) eqn:E; cbn [fst snd isAdmin].
    + split; [now left|]. apply andb_prop in E as [Hu Hp].
      apply eq_text_some in Hu, Hp. subst. split; [now left|reflexivity].
    + split; [now left|]. split; [right; easy|].
      intros [[= -> ->]|[Hs _]]; [|exact Hs].
      unfold Sql.eq_text in E. now rewrite !String.eqb_refl in E.
  - unfold requireAuth. destruct (isAdmin s) eqn:Hs; cbn [fst snd isAdmin].
    + split; [now left|]. split; [discriminate|]. intros [[=]|[_ H]]. now contradiction H.
    + split; [now left|]. rewrite Hs. split; [discriminate|]. now intros [[=]|[[=] _]].
  - unfold requireAuth. destruct (isAdmin s) eqn:Hs; cbn [fst snd].
    + split; [now left|]. rewrite Hs. split; [right; easy|reflexivity].
    + split; [now left|]. rewrite Hs. split; [discriminate|]. now intros [[=]|[[=] _]].
  - unfold requireAuth. destruct (isAdmin s) eqn:Hs.
    + destruct (post_upload file w) as [answer w'] eqn:E. cbn [fst snd]. rewrite Hs.
      split; [|split; [right; easy|reflexivity]].
      destruct file as [results|]; [right; eauto|left].
      cbn [post_upload] in E. now injection E as _ <-.
    + cbn [fst snd]. split; [now left|]. rewrite Hs.
      split; [discriminate|]. now intros [[=]|[[=] _]].
  - pose proof (getDashboardStats_table w).
    destruct (getDashboardStats w) as [[stats|] w']; cbn [fst snd] in *;
      (split; [now left|]); split; [right; easy|intros [[=]|[Hs _]]; exact Hs
                                    |right; easy|intros [[=]|[Hs _]]; exact Hs].
Qed.

(** X20. Only an authenticated upload writes: a request changes the table
    only if it is a [POST /upload] with a file in a session logged in as
    admin; and a session is logged in after a request exactly when the
    request is a login with the admin credentials, or the session was logged
    in and the request is not a logout (a failed login does not log out).
    Hence a client that starts logged out and never sends the admin
    credentials leaves the table as it is, whatever it requests. *)
Theorem only_an_admin_upload_changes_the_table :
  (forall req s w,
     table (snd (handle req s w)) <> table w ->
     isAdmin s = true /\ exists results, req = PostUpload (Some results))
  /\ (forall req s w,
        isAdmin (snd (fst (handle req s w))) = true
        <-> admin_login req \/ (isAdmin s = true /\ req <> GetLogout))
  /\ (forall reqs w,
        Forall (fun req => ~ admin_login req) reqs ->
        isAdmin (fst (serve reqs {| isAdmin := false |} w)) = false
        /\ table (snd (serve reqs {| isAdmin := false |} w)) = table w).
Proof.
  split; [|split].
  - intros req s w Hchanged.
    destruct (proj1 (handle_effect req s w)) as [Hsame|Hup]; [contradiction|exact Hup].
  - intros req s w. apply handle_effect.
  - intros reqs. 
    assert (Hgen : forall s w,
               isAdmin s = false -> Forall (fun req => ~ admin_login req) reqs ->
               isAdmin (fst (serve reqs s w)) = false
               /\ table (snd (serve reqs s w)) = table w).
    { induction reqs as [|req rest IH]; intros s w Hs Hreqs; [now split|].
      inversion Hreqs as [|? ? Hreq Hrest]; subst. cbn [serve].
      pose proof (handle_effect req s w) as [Htable Hsession].
      destruct (handle req s w) as [[resp s'] w']. cbn [fst snd] in *.
      assert (Hs' : isAdmin s' = false).
      { destruct (isAdmin s') eqn:E; [|reflexivity].
        destruct (proj1 Hsession eq_refl) as [Hlogin|[Hadmin _]];
          [contradiction|congruence]. }
      destruct (IH s' w' Hs' Hrest) as [Hfinal Hkept]. split; [exact Hfinal|].
      rewrite Hkept. destruct Htable as [Hsame|[Hadmin _]]; [exact Hsame|congruence]. }
    intros w Hreqs. now apply Hgen.
Qed.

Lemma only_an_admin_upload_changes_the_table_witness :
  (isAdmin {| isAdmin := true |} = true
   /\ exists results, PostUpload (Some [Examples.row1]) = PostUpload (Some results))
  /\ table (snd (serve [PostLogin (Some "admin") (Some "guess");
                        PostUpload (Some [Examples.row1]); GetDashboard; GetLogout]
                       {| isAdmin := false |} Examples.empty_world))
     = table Examples.empty_world.
Proof.
  pose proof only_an_admin_upload_changes_the_table as (Hwrite & _ & Hout).
  split.
  - apply (Hwrite (PostUpload (Some [Examples.row1])) {| isAdmin := true |}
             Examples.empty_world).
    vm_compute. discriminate.
  - apply Hout. repeat constructor; discriminate.
Defined.
